(** * Gramasetu voice assistant: the widget (va.js) and the chatbot context
      of the backend, embedded and verified.

    The file follows the two sources.  [JS] holds the fragment of the
    JavaScript string operations the code relies on, over UTF-16 code
    units.  [Widget] is va.js: the script's globals, the DOM elements it
    touches and the browser objects it drives (recognition sessions, the
    synthesis queue, timers, pending fetches) as one record, the functions
    of the script as computations over it, and the browser's events as a
    step function that runs the handler the script attached.  [Server] is
    the /api/cb-chat handler of the backend, cut at its await points. *)

From Stdlib Require Import ZArith List Bool String Ascii Lia.
From stdpp Require Import base tactics option list gmap.
Import ListNotations.

Local Open Scope Z_scope.

(** ** JavaScript strings *)

Module JS.

(** A JavaScript string is a sequence of UTF-16 code units. *)
Definition jsstring := list Z.

(** ASCII literals of the source. *)
Definition js (s : string) : jsstring :=
  map (fun a => Z.of_N (N_of_ascii a)) (list_ascii_of_string s).

(** The UTF-16 encoding of a sequence of code points: a code point of the
    basic plane is its own code unit, any other becomes a surrogate pair. *)
Definition utf16_unit (cp : Z) : list Z :=
  if cp <? 65536 then [cp]
  else [55296 + Z.shiftr (cp - 65536) 10; 56320 + Z.land (cp - 65536) 1023].

Definition utf16 (cps : list Z) : jsstring := flat_map utf16_unit cps.

(** [s] is falsy exactly when it is the empty string. *)
Definition nonempty (s : jsstring) : bool :=
  match s with [] => false | _ => true end.

(** [a || b] on strings that may be absent. *)
Definition or_else (a : option jsstring) (b : jsstring) : jsstring :=
  match a with
  | Some s => if nonempty s then s else b
  | None => b
  end.

(** A character class [[lo-hi]] tested without the [u] flag matches one
    code unit. *)
Definition in_range (lo hi c : Z) : bool := (lo <=? c) && (c <=? hi).

(** [/[ಀ-೿]/.test(s)] *)
Definition KANNADA_REGEX (s : jsstring) : bool :=
  existsb (in_range 3200 3327) s.

(** [/[A-Za-z]/.test(s)] *)
Definition LATIN_REGEX (s : jsstring) : bool :=
  existsb (fun c => in_range 65 90 c || in_range 97 122 c) s.

(** White space and line terminators, the code units [trim] strips. *)
Definition is_space (c : Z) : bool :=
  in_range 9 13 c || (c =? 32) || (c =? 160) || (c =? 5760)
  || in_range 8192 8202 c || (c =? 8232) || (c =? 8233) || (c =? 8239)
  || (c =? 8287) || (c =? 12288) || (c =? 65279).

Fixpoint trimStart (s : jsstring) : jsstring :=
  match s with
  | c :: s' => if is_space c then trimStart s' else s
  | [] => []
  end.

Definition trim (s : jsstring) : jsstring :=
  rev (trimStart (rev (trimStart s))).

Fixpoint startsWith (s p : jsstring) : bool :=
  match p, s with
  | [], _ => true
  | _ :: _, [] => false
  | a :: p', b :: s' => (a =? b) && startsWith s' p'
  end.

(** [s.includes(p)] *)
Fixpoint includes (s p : jsstring) : bool :=
  startsWith s p ||
  match s with
  | [] => false
  | _ :: s' => includes s' p
  end.

(** [a === b] on strings. *)
Definition streq (a b : jsstring) : bool := bool_decide (a = b).

(** [String.prototype.toLowerCase].  Its Unicode case mapping is the
    engine's; the script only needs it to be a function of the string. *)
Class StringCase := toLowerCase : jsstring -> jsstring.

(** The mapping on the ASCII letters, used to run the model on examples. *)
Definition asciiLowerCase : StringCase :=
  map (fun c => if in_range 65 90 c then c + 32 else c).

End JS.
Import JS.

(** ** The language detector (va.js, lines 9-21) *)

(** [detectLangFromText(text)]; [None] is an absent argument. *)
Definition detectLangFromText (text : option jsstring) : jsstring :=
  match text with
  | None => js "en"
  | Some s =>
      if negb (nonempty s) then js "en"
      else if KANNADA_REGEX s then js "kn" else js "en"
  end.

(** A code point of the Kannada block, U+0C80 to U+0CFF; an ASCII code
    point. *)
Definition kannada_cp (cp : Z) : bool := (3200 <=? cp) && (cp <=? 3327).

Definition ascii_cp (cp : Z) : bool := (0 <=? cp) && (cp <=? 127).


(** ** The widget (va.js) *)

Module Widget.

(** *** String constants of the script *)

(** "ನಿಮ್ಮ ಬ್ರೌಸರ್‌ಗೆ Speech Recognition ಬೆಂಬಲ ಇಲ್ಲ." *)
Definition MSG_NO_RECOGNITION : jsstring :=
  [3240; 3263; 3246; 3277; 3246; 32; 3244; 3277; 3248; 3276; 3256; 3248;
   3277; 8204; 3223; 3270; 32; 83; 112; 101; 101; 99; 104; 32; 82; 101; 99;
   111; 103; 110; 105; 116; 105; 111; 110; 32; 3244; 3270; 3202; 3244; 3250;
   32; 3207; 3250; 3277; 3250; 46].

(** "ಕ್ಷಮಿಸಿ, ವಾಚನವನ್ನು ಹಿಡಿಯಲಾಗಲಿಲ್ಲ." *)
Definition MSG_RECOGNITION_ERROR : jsstring :=
  [3221; 3277; 3255; 3246; 3263; 3256; 3263; 44; 32; 3253; 3262; 3226; 3240;
   3253; 3240; 3277; 3240; 3265; 32; 3257; 3263; 3233; 3263; 3247; 3250;
   3262; 3223; 3250; 3263; 3250; 3277; 3250; 46].

(** "⚠️ ಸಂಪರ್ಕ ದೋಷ." *)
Definition MSG_CONNECTION_ERROR : jsstring :=
  [9888; 65039; 32; 3256; 3202; 3242; 3248; 3277; 3221; 32; 3238; 3275;
   3255; 46].

(** "ಕ್ಷಮಿಸಿ — ಉತ್ತರ ಸಿಗಲಿಲ್ಲ." *)
Definition MSG_NO_REPLY : jsstring :=
  [3221; 3277; 3255; 3246; 3263; 3256; 3263; 32; 8212; 32; 3209; 3236; 3277;
   3236; 3248; 32; 3256; 3263; 3223; 3250; 3263; 3250; 3277; 3250; 46].

(** "⚠️ ದೋಷ. ಮತ್ತೆ ಪ್ರಯತ್ನಿಸಿ." *)
Definition MSG_API_ERROR : jsstring :=
  [9888; 65039; 32; 3238; 3275; 3255; 46; 32; 3246; 3236; 3277; 3236; 3270;
   32; 3242; 3277; 3248; 3247; 3236; 3277; 3240; 3263; 3256; 3263; 46].

(** The template literal [systemInstructionKn], line breaks included. *)
Definition systemInstructionKn : jsstring :=
  [10; 3240; 3264; 3253; 3265; 32; 3218; 3244; 3277; 3244; 32; 3256; 3277;
   3240; 3271; 3257; 3245; 3248; 3263; 3236; 44; 32; 3256; 3248; 3251; 44;
   32; 3246; 3236; 3277; 3236; 3265; 32; 3256; 3238; 3262; 32; 3254; 3263;
   3255; 3277; 3231; 32; 75; 97; 110; 110; 97; 100; 97; 32; 3256; 3257;
   3262; 3247; 3223; 3262; 3248; 46; 10; 3240; 3264; 3253; 3265; 32; 3256;
   3248; 3251; 32; 3246; 3262; 3236; 3263; 3240; 32; 3254; 3272; 3250; 3263;
   3247; 3250; 3277; 3250; 3263; 32; 49; 48; 48; 37; 32; 3221; 3240; 3277;
   3240; 3233; 3238; 32; 3209; 3236; 3277; 3236; 3248; 32; 3240; 3264; 3233;
   3263; 46; 10].

Definition systemInstructionEn : jsstring :=
  js "Reply in short, friendly English.".

Definition femaleHints : list jsstring :=
  [js "female"; js "zira"; js "anya"; js "meera"; js "sangeet";
   js "sangeetha"; js "google"; js "amy"; js "samantha"; js "alloy"].

(** *** Data *)

(** The first argument of [addMessage]: "user" or anything else. *)
Inductive role := User | Bot.

(** A [SpeechSynthesisVoice]. *)
Record voice := { v_name : jsstring; v_lang : jsstring }.

(** A [SpeechSynthesisUtterance] as [speakOut] builds it (rate 1 and pitch
    1.05 are constants; every utterance carries the same two handlers). *)
Record utterance :=
  { u_text : jsstring; u_lang : jsstring; u_voice : option voice }.

(** [window.speechSynthesis]: the voices it offers, the utterances queued
    and the one being spoken. *)
Record synthesis :=
  { voices : list voice; pending : list utterance;
    speaking : option utterance }.

(** Life cycle of a recognition object: [start()] takes it from [Inactive]
    to [Requested], the browser's start event to [Started], its end event
    back to [Inactive]. *)
Inductive phase := Inactive | Requested | Started.

(** A [SpeechRecognition] object as [initRecognition] sets it up
    (interimResults and continuous are false).  [onstart] and [onresult]
    stay attached for the life of the object; [r_onend] and [r_onerror]
    tell whether those two handlers are still attached.  [r_stopping]
    records that [stop()] was called on a running session. *)
Record session :=
  { r_lang : jsstring; r_onend : bool; r_onerror : bool;
    r_phase : phase; r_stopping : bool }.

(** The variables a suspended call of [sendMessageToAPI] holds. *)
Record request :=
  { q_text : jsstring; q_lang : jsstring; q_triedRetry : bool }.

(** What [response.json()] can deliver, as line 307 reads it.  On
    [BadBody] reading [data.reply] throws: [json()] rejects because the
    body is no JSON text, or the body is the JSON value null.  Every
    other JSON value lets [data.reply] be read: [Json] holds the string
    found there, [None] when there is none (a number, a string, a boolean
    or an array as body, or an object without that field).  A reply that
    is there is taken to be a string, as /api/chat sends it. *)
Inductive body :=
| BadBody
| Json (reply : option jsstring).

Inductive response :=
| Rejected                         (* fetch rejects: no connection *)
| Http (ok : bool) (b : body).     (* response.ok and its body *)

Inductive callback := CbStartListening.

(** A pending [setTimeout]. *)
Record timer := { t_delay : Z; t_callback : callback }.

(** Calls that leave the script. *)
Inductive action :=
| AFetch (message language : jsstring)   (* POST to API_URL *)
| ASpeakOut (text lang : jsstring)       (* speakOut entered *)
| AAlert (msg : jsstring)
| AConsole.                              (* console.warn / console.error *)

(** The elements of the chat box the script reads back: the children of
    #voice-chat-messages, the style of #innerMicBtn (enlarged or not), the
    text of #va-lang-badge and whether the box is displayed. *)
Record dom :=
  { messages : list (role * jsstring); micOn : bool; badge : jsstring;
    shown : bool }.

(** The whole state: the script's [let] variables, [window.currentLang],
    the "lang" key of localStorage, the chat box if it was created, and
    the browser objects the script drives.  [hasSR] tells whether the
    browser offers SpeechRecognition, [storageFails] whether
    [localStorage.setItem] throws.  ([chatHistory] is only ever assigned
    the empty array and never read; it is left out.) *)
Record widget :=
  { recognition : option nat;
    isListening : bool;
    isBotSpeaking : bool;
    wasListeningBeforeSpeak : bool;
    currentLang : option jsstring;
    storedLang : option jsstring;
    box : option dom;
    sessions : list session;
    synth : option synthesis;
    timers : list timer;
    inflight : list request;
    log : list action;
    hasSR : bool;
    storageFails : bool }.

Definition set_recognition (v : option nat) (w : widget) : widget :=
  {| recognition := v; isListening := isListening w; isBotSpeaking :=
     isBotSpeaking w; wasListeningBeforeSpeak := wasListeningBeforeSpeak w;
     currentLang := currentLang w; storedLang := storedLang w; box := box w;
     sessions := sessions w; synth := synth w; timers := timers w; inflight :=
     inflight w; log := log w; hasSR := hasSR w; storageFails := storageFails w
     |}.

Definition set_isListening (v : bool) (w : widget) : widget :=
  {| recognition := recognition w; isListening := v; isBotSpeaking :=
     isBotSpeaking w; wasListeningBeforeSpeak := wasListeningBeforeSpeak w;
     currentLang := currentLang w; storedLang := storedLang w; box := box w;
     sessions := sessions w; synth := synth w; timers := timers w; inflight :=
     inflight w; log := log w; hasSR := hasSR w; storageFails := storageFails w
     |}.

Definition set_isBotSpeaking (v : bool) (w : widget) : widget :=
  {| recognition := recognition w; isListening := isListening w;
     isBotSpeaking := v; wasListeningBeforeSpeak := wasListeningBeforeSpeak w;
     currentLang := currentLang w; storedLang := storedLang w; box := box w;
     sessions := sessions w; synth := synth w; timers := timers w; inflight :=
     inflight w; log := log w; hasSR := hasSR w; storageFails := storageFails w
     |}.

Definition set_wasListeningBeforeSpeak (v : bool) (w : widget) : widget :=
  {| recognition := recognition w; isListening := isListening w;
     isBotSpeaking := isBotSpeaking w; wasListeningBeforeSpeak := v;
     currentLang := currentLang w; storedLang := storedLang w; box := box w;
     sessions := sessions w; synth := synth w; timers := timers w; inflight :=
     inflight w; log := log w; hasSR := hasSR w; storageFails := storageFails w
     |}.

Definition set_currentLang (v : option jsstring) (w : widget) : widget :=
  {| recognition := recognition w; isListening := isListening w;
     isBotSpeaking := isBotSpeaking w; wasListeningBeforeSpeak :=
     wasListeningBeforeSpeak w; currentLang := v; storedLang := storedLang w;
     box := box w; sessions := sessions w; synth := synth w; timers := timers
     w; inflight := inflight w; log := log w; hasSR := hasSR w; storageFails :=
     storageFails w |}.

Definition set_storedLang (v : option jsstring) (w : widget) : widget :=
  {| recognition := recognition w; isListening := isListening w;
     isBotSpeaking := isBotSpeaking w; wasListeningBeforeSpeak :=
     wasListeningBeforeSpeak w; currentLang := currentLang w; storedLang := v;
     box := box w; sessions := sessions w; synth := synth w; timers := timers
     w; inflight := inflight w; log := log w; hasSR := hasSR w; storageFails :=
     storageFails w |}.

Definition set_box (v : option dom) (w : widget) : widget :=
  {| recognition := recognition w; isListening := isListening w;
     isBotSpeaking := isBotSpeaking w; wasListeningBeforeSpeak :=
     wasListeningBeforeSpeak w; currentLang := currentLang w; storedLang :=
     storedLang w; box := v; sessions := sessions w; synth := synth w; timers
     := timers w; inflight := inflight w; log := log w; hasSR := hasSR w;
     storageFails := storageFails w |}.

Definition set_sessions (v : list session) (w : widget) : widget :=
  {| recognition := recognition w; isListening := isListening w;
     isBotSpeaking := isBotSpeaking w; wasListeningBeforeSpeak :=
     wasListeningBeforeSpeak w; currentLang := currentLang w; storedLang :=
     storedLang w; box := box w; sessions := v; synth := synth w; timers :=
     timers w; inflight := inflight w; log := log w; hasSR := hasSR w;
     storageFails := storageFails w |}.

Definition set_synth (v : option synthesis) (w : widget) : widget :=
  {| recognition := recognition w; isListening := isListening w;
     isBotSpeaking := isBotSpeaking w; wasListeningBeforeSpeak :=
     wasListeningBeforeSpeak w; currentLang := currentLang w; storedLang :=
     storedLang w; box := box w; sessions := sessions w; synth := v; timers :=
     timers w; inflight := inflight w; log := log w; hasSR := hasSR w;
     storageFails := storageFails w |}.

Definition set_timers (v : list timer) (w : widget) : widget :=
  {| recognition := recognition w; isListening := isListening w;
     isBotSpeaking := isBotSpeaking w; wasListeningBeforeSpeak :=
     wasListeningBeforeSpeak w; currentLang := currentLang w; storedLang :=
     storedLang w; box := box w; sessions := sessions w; synth := synth w;
     timers := v; inflight := inflight w; log := log w; hasSR := hasSR w;
     storageFails := storageFails w |}.

Definition set_inflight (v : list request) (w : widget) : widget :=
  {| recognition := recognition w; isListening := isListening w;
     isBotSpeaking := isBotSpeaking w; wasListeningBeforeSpeak :=
     wasListeningBeforeSpeak w; currentLang := currentLang w; storedLang :=
     storedLang w; box := box w; sessions := sessions w; synth := synth w;
     timers := timers w; inflight := v; log := log w; hasSR := hasSR w;
     storageFails := storageFails w |}.

Definition set_log (v : list action) (w : widget) : widget :=
  {| recognition := recognition w; isListening := isListening w;
     isBotSpeaking := isBotSpeaking w; wasListeningBeforeSpeak :=
     wasListeningBeforeSpeak w; currentLang := currentLang w; storedLang :=
     storedLang w; box := box w; sessions := sessions w; synth := synth w;
     timers := timers w; inflight := inflight w; log := v; hasSR := hasSR w;
     storageFails := storageFails w |}.

(** *** Computations: state and exceptions *)

Inductive exn := TypeError | InvalidStateError | StorageError | FetchError.

Inductive result (A : Type) := Ok (a : A) | Throw (e : exn).
Arguments Ok {A} a.
Arguments Throw {A} e.

(** A computation returns or throws; what it did to the state before it
    threw stays done. *)
Definition M (A : Type) := widget -> result A * widget.

Definition ret {A} (a : A) : M A := fun w => (Ok a, w).

Definition bind {A B} (m : M A) (k : A -> M B) : M B :=
  fun w => match m w with
           | (Ok a, w') => k a w'
           | (Throw e, w') => (Throw e, w')
           end.

Definition throw {A} (e : exn) : M A := fun w => (Throw e, w).

(** [try { m } catch (e) { h e }] *)
Definition try_catch {A} (m : M A) (h : exn -> M A) : M A :=
  fun w => match m w with
           | (Ok a, w') => (Ok a, w')
           | (Throw e, w') => h e w'
           end.

Definition gets {A} (f : widget -> A) : M A := fun w => (Ok (f w), w).

Definition modify (f : widget -> widget) : M unit := fun w => (Ok tt, f w).

Definition when (b : bool) (m : M unit) : M unit := if b then m else ret tt.

(** The state a handler leaves behind; an exception that escapes a handler
    goes to the console and changes nothing more. *)
Definition exec {A} (m : M A) (w : widget) : widget := snd (m w).

Declare Scope js_scope.
Delimit Scope js_scope with M.
Notation "x <- c ;; k" := (bind c (fun x => k))
  (at level 100, c at next level, right associativity) : js_scope.
Notation "c ;; k" := (bind c (fun _ => k))
  (at level 100, right associativity) : js_scope.
Local Open Scope js_scope.

Definition console : M unit :=
  modify (fun w => set_log (log w ++ [AConsole]) w).

Definition alert (msg : jsstring) : M unit :=
  modify (fun w => set_log (log w ++ [AAlert msg]) w).

(** Updates of the chat box, skipped when the element is not there. *)
Definition on_box (f : dom -> dom) : M unit :=
  modify (fun w => set_box (f <$> box w) w).

Definition set_messages (v : list (role * jsstring)) (d : dom) : dom :=
  {| messages := v; micOn := micOn d; badge := badge d; shown := shown d |}.
Definition set_micOn (v : bool) (d : dom) : dom :=
  {| messages := messages d; micOn := v; badge := badge d; shown := shown d |}.
Definition set_badge (v : jsstring) (d : dom) : dom :=
  {| messages := messages d; micOn := micOn d; badge := v; shown := shown d |}.
Definition set_shown (v : bool) (d : dom) : dom :=
  {| messages := messages d; micOn := micOn d; badge := badge d; shown := v |}.

(** *** Language settings (lines 10-17) *)

(** The read of the "lang" key, which the function makes only while
    [window.currentLang] is unset, is taken to return.  A browser in
    which reading localStorage throws is outside this model: there the
    call at line 160 throws while the page loads, [createVoiceChatBox]
    and the DOMContentLoaded listener stop at that point, and the button
    that would open the box never gets its listener. *)
Definition getCurrentLang (w : widget) : jsstring :=
  or_else (currentLang w) (or_else (storedLang w) (js "en")).

Definition localStorage_setItem (lang : jsstring) : M unit :=
  fails <- gets storageFails ;;
  if fails then throw StorageError
  else modify (set_storedLang (Some lang)).

Definition saveLang (lang : jsstring) : M unit :=
  if negb (nonempty lang) then ret tt
  else
    modify (set_currentLang (Some lang)) ;;
    try_catch (localStorage_setItem lang) (fun _ => ret tt).

(** *** The chat box (lines 171-213) *)

Definition updateLangBadge : M unit :=
  lang <- gets getCurrentLang ;;
  on_box (set_badge (if streq lang (js "kn") then js "KN" else js "EN")).

Definition addMessage (r : role) (text : jsstring) : M unit :=
  on_box (fun d => set_messages (messages d ++ [(r, text)]) d).

Definition clearChat : M unit := on_box (set_messages []).

Definition mic_on : M unit := on_box (set_micOn true).
Definition mic_off : M unit := on_box (set_micOn false).


(** *** Speech recognition (lines 218-278) *)

Definition set_handlers (onend onerror : bool) (s : session) : session :=
  {| r_lang := r_lang s; r_onend := onend; r_onerror := onerror;
     r_phase := r_phase s; r_stopping := r_stopping s |}.

Definition set_phase (p : phase) (stopping : bool) (s : session) : session :=
  {| r_lang := r_lang s; r_onend := r_onend s; r_onerror := r_onerror s;
     r_phase := p; r_stopping := stopping |}.

Definition running (s : session) : bool :=
  match r_phase s with Inactive => false | _ => true end.

Definition on_session (i : nat) (f : session -> session) : M unit :=
  modify (fun w => set_sessions (alter f i (sessions w)) w).

(** Methods of the recognition object [i], as the Web Speech API gives
    them: [stop()] asks a running session to finish (the browser still
    delivers what it heard, then the end event) and is harmless
    otherwise; [start()] throws InvalidStateError unless the object is
    inactive. *)
Definition session_stop (i : nat) : M unit :=
  on_session i (fun s => if running s then set_phase (r_phase s) true s else s).

Definition session_start (i : nat) : M unit :=
  ss <- gets sessions ;;
  match ss !! i with
  | Some s =>
      if running s then throw InvalidStateError
      else on_session i (set_phase Requested false)
  | None => throw TypeError
  end.

(** A method call on the variable [recognition]: TypeError when it holds
    null. *)
Definition recognition_call (method : nat -> M unit) : M unit :=
  r <- gets recognition ;;
  match r with
  | Some i => method i
  | None => throw TypeError
  end.

Definition recreateRecognition : M unit :=
  r <- gets recognition ;;
  match r with
  | Some i =>
      try_catch
        (on_session i (fun s => set_handlers false (r_onerror s) s) ;;
         on_session i (fun s => set_handlers (r_onend s) false s) ;;
         session_stop i)
        (fun _ => ret tt) ;;
      modify (set_recognition None)
  | None => ret tt
  end.

Definition initRecognition : M unit :=
  sr <- gets hasSR ;;
  if negb sr then alert MSG_NO_RECOGNITION
  else
    lang <- gets getCurrentLang ;;
    modify (fun w =>
      set_recognition (Some (length (sessions w)))
        (set_sessions
           (sessions w ++
            [{| r_lang := if streq lang (js "kn") then js "kn-IN" else js "en-IN";
                r_onend := true; r_onerror := true;
                r_phase := Inactive; r_stopping := false |}]) w)).

Definition ensureRecognition : M unit :=
  r <- gets recognition ;;
  match r with
  | Some _ => ret tt
  | None => initRecognition
  end.

Definition startListening : M unit :=
  ensureRecognition ;;
  try_catch (recognition_call session_start)
    (fun _ =>
       try_catch (recognition_call session_stop ;; recognition_call session_start)
         (fun _ => ret tt)).

Definition stopListening : M unit :=
  r <- gets recognition ;;
  match r with
  | Some i => try_catch (session_stop i) (fun _ => ret tt)
  | None => ret tt
  end ;;
  modify (set_isListening false) ;;
  mic_off.

Definition toggleListening : M unit :=
  ensureRecognition ;;
  l <- gets isListening ;;
  if l then stopListening else startListening.

(** *** Speech output (lines 323-366) *)

(** [synth.cancel()] empties the queue and cuts the utterance being
    spoken; the browser reports that to the utterance as an error event,
    for which the script attaches no handler.  [synth.speak(u)] queues. *)
Definition cancel (s : synthesis) : synthesis :=
  {| voices := voices s; pending := []; speaking := None |}.

Definition speak (u : utterance) (s : synthesis) : synthesis :=
  {| voices := voices s; pending := pending s ++ [u]; speaking := speaking s |}.

Definition busy (s : synthesis) : bool :=
  match speaking s, pending s with
  | None, [] => false
  | _, _ => true
  end.

Definition stopSpeaking : M unit :=
  sy <- gets synth ;;
  match sy with
  | Some s => when (busy s) (modify (set_synth (Some (cancel s))))
  | None => ret tt
  end ;;
  modify (set_isBotSpeaking false).

Definition setTimeout (cb : callback) (delay : Z) : M unit :=
  modify (fun w =>
    set_timers (timers w ++ [{| t_delay := delay; t_callback := cb |}]) w).

(** The two handlers [speakOut] puts on every utterance. *)
Definition utter_onstart : M unit :=
  modify (set_isBotSpeaking true) ;;
  l <- gets isListening ;;
  modify (set_wasListeningBeforeSpeak l) ;;
  stopListening.

Definition utter_onend : M unit :=
  modify (set_isBotSpeaking false) ;;
  was <- gets wasListeningBeforeSpeak ;;
  when was (setTimeout CbStartListening 200) ;;
  modify (set_wasListeningBeforeSpeak false).

Section WithStringCase.
Context `{StringCase}.

Definition localeMatches (lang : jsstring) (v : voice) : bool :=
  nonempty (v_lang v) &&
  includes (toLowerCase (v_lang v))
           (if streq lang (js "kn") then js "kn" else js "en").

Definition nameHinted (v : voice) : bool :=
  existsb (fun h => includes (toLowerCase (v_name v)) h) femaleHints.

Definition selectFemaleVoiceForLang (vs : list voice) (lang : jsstring)
  : option voice :=
  match find (fun v => localeMatches lang v && nameHinted v) vs with
  | Some found => Some found
  | None =>
      match find (localeMatches lang) vs with
      | Some found => Some found
      | None =>
          match find nameHinted vs with
          | Some found => Some found
          | None =>
              match vs with
              | v :: _ => Some v
              | [] => None
              end
          end
      end
  end.

Definition speakOut (text lang : jsstring) : M unit :=
  modify (fun w => set_log (log w ++ [ASpeakOut text lang]) w) ;;
  stopSpeaking ;;
  sy <- gets synth ;;
  match sy with
  | None => ret tt
  | Some s =>
      let utter :=
        {| u_text := text;
           u_lang := if streq lang (js "kn") then js "kn-IN" else js "en-IN";
           u_voice := selectFemaleVoiceForLang (voices s) lang |} in
      modify (set_synth (Some (speak utter s)))
  end.

(** *** The relay (lines 283-318) *)

(** [fetch(API_URL, ...)]: the request leaves, the caller is suspended
    with its variables until the response arrives. *)
Definition fetch (message language : jsstring) (q : request) : M unit :=
  modify (fun w =>
    set_inflight (inflight w ++ [q])
      (set_log (log w ++ [AFetch message language]) w)).

Definition fullPrompt (text lang : jsstring) : jsstring :=
  (if streq lang (js "kn") then systemInstructionKn else systemInstructionEn)
  ++ [10; 10] ++ js "User: " ++ text.

Definition api_catch : exn -> M unit :=
  fun _ => console ;; addMessage Bot MSG_API_ERROR.

(** [sendMessageToAPI] up to its first await. *)
Definition sendMessageToAPI (text lang : jsstring) (triedRetry : bool)
  : M unit :=
  try_catch
    (fetch (fullPrompt text lang) lang
       {| q_text := text; q_lang := lang; q_triedRetry := triedRetry |})
    api_catch.

(** [sendMessageToAPI] from the arrival of the response on. *)
Definition sendMessageToAPI_resume (q : request) (r : response) : M unit :=
  try_catch
    (match r with
     | Rejected => throw FetchError
     | Http ok b =>
         if negb ok then addMessage Bot MSG_CONNECTION_ERROR
         else
           match b with
           | BadBody => throw TypeError
           | Json data_reply =>
               let reply := or_else data_reply MSG_NO_REPLY in
               if streq (q_lang q) (js "kn") && LATIN_REGEX reply
                  && negb (q_triedRetry q)
               then sendMessageToAPI (q_text q) (q_lang q) true
               else
                 addMessage Bot reply ;;
                 speakOut reply (q_lang q)
           end
     end)
    api_catch.

(** *** Handlers of the recognition object (lines 234-259) *)

Definition rec_onstart : M unit :=
  modify (set_isListening true) ;;
  mic_on.

Definition rec_onresult (event_transcript : option jsstring) : M unit :=
  let transcript := trim (or_else event_transcript []) in
  if negb (nonempty transcript) then ret tt
  else
    let detected := detectLangFromText (Some transcript) in
    saveLang detected ;;
    updateLangBadge ;;
    addMessage User transcript ;;
    sendMessageToAPI transcript detected false.

Definition rec_onerror : M unit :=
  console ;;
  addMessage Bot MSG_RECOGNITION_ERROR.

Definition rec_onend : M unit :=
  modify (set_isListening false) ;;
  mic_off.

(** *** Buttons of the chat box (lines 85-104, 141, 374-377) *)

Definition langBadge_onclick : M unit :=
  lang <- gets getCurrentLang ;;
  saveLang (if streq lang (js "kn") then js "en" else js "kn") ;;
  updateLangBadge ;;
  recreateRecognition.

Definition closeBtn_onclick : M unit :=
  stopListening ;;
  stopSpeaking ;;
  on_box (set_shown false).

Definition voiceAssistantBtn_onclick : M unit :=
  on_box (set_shown true).

(** [createVoiceChatBox], run once the document is loaded. *)
Definition createVoiceChatBox : M unit :=
  b <- gets box ;;
  match b with
  | Some _ => ret tt
  | None =>
      modify (set_box (Some {| messages := []; micOn := false;
                               badge := []; shown := false |})) ;;
      lang <- gets getCurrentLang ;;
      saveLang lang ;;
      updateLangBadge
  end.

(** The page when the script has been read: nothing created yet. *)
Definition blank (sr fails : bool) (vs : option (list voice))
    (stored : option jsstring) : widget :=
  {| recognition := None; isListening := false; isBotSpeaking := false;
     wasListeningBeforeSpeak := false; currentLang := None;
     storedLang := stored; box := None; sessions := [];
     synth := (fun l => {| voices := l; pending := []; speaking := None |})
              <$> vs;
     timers := []; inflight := []; log := [];
     hasSR := sr; storageFails := fails |}.

(** The widget after DOMContentLoaded. *)
Definition loaded (sr fails : bool) (vs : option (list voice))
    (stored : option jsstring) : widget :=
  exec createVoiceChatBox (blank sr fails vs stored).

(** *** Events *)

(** What the user and the browser can do to the widget.  Recognition
    events name the object they belong to, by its index in [sessions]; a
    fetch or a timer is named by its place among the pending ones.  (The
    functions the script also hands out as [window.va] are called by
    nothing in the repository; such calls are not among the events.) *)
Inductive event :=
| OpenClick | MicClick | LangClick | ClearClick | CloseClick
| RecStart (i : nat)
| RecResult (i : nat) (transcript : option jsstring)
| RecError (i : nat)
| RecEnd (i : nat)
| FetchDone (k : nat) (r : response)
| UttStart
| UttEnd
| UttError
| TimerFire (k : nat).

Definition displayed (w : widget) : bool :=
  match box w with
  | Some d => shown d
  | None => false
  end.

Definition run_callback (cb : callback) : M unit :=
  match cb with
  | CbStartListening => startListening
  end.

(** One event: [None] when the browser cannot deliver it in this state (a
    click on a hidden button, a start event for a session nobody started,
    the end of an utterance that is not being spoken).  Otherwise the
    browser updates its own object and runs the handler attached to it,
    if any.  An utterance, spoken or still queued, can end in an error
    event instead of its end event: the engine drops it, and no handler
    runs, as [speakOut] attaches none for it (lines 348-357). *)
Definition step (e : event) (w : widget) : option widget :=
  match e with
  | OpenClick => Some (exec voiceAssistantBtn_onclick w)
  | MicClick =>
      if displayed w then Some (exec toggleListening w) else None
  | LangClick =>
      if displayed w then Some (exec langBadge_onclick w) else None
  | ClearClick =>
      if displayed w then Some (exec clearChat w) else None
  | CloseClick =>
      if displayed w then Some (exec closeBtn_onclick w) else None
  | RecStart i =>
      match sessions w !! i with
      | Some s =>
          match r_phase s with
          | Requested =>
              Some (exec (on_session i (set_phase Started (r_stopping s)) ;;
                          rec_onstart) w)
          | _ => None
          end
      | None => None
      end
  | RecResult i transcript =>
      match sessions w !! i with
      | Some s =>
          match r_phase s with
          | Started => Some (exec (rec_onresult transcript) w)
          | _ => None
          end
      | None => None
      end
  | RecError i =>
      match sessions w !! i with
      | Some s =>
          if running s
          then Some (exec (when (r_onerror s) rec_onerror) w)
          else None
      | None => None
      end
  | RecEnd i =>
      match sessions w !! i with
      | Some s =>
          if running s
          then Some (exec (on_session i (set_phase Inactive false) ;;
                           when (r_onend s) rec_onend) w)
          else None
      | None => None
      end
  | FetchDone k r =>
      match inflight w !! k with
      | Some q =>
          Some (exec (modify (fun w => set_inflight (delete k (inflight w)) w) ;;
                      sendMessageToAPI_resume q r) w)
      | None => None
      end
  | UttStart =>
      match synth w with
      | Some s =>
          match speaking s, pending s with
          | None, u :: rest =>
              Some (exec (modify (set_synth
                              (Some {| voices := voices s; pending := rest;
                                       speaking := Some u |})) ;;
                          utter_onstart) w)
          | _, _ => None
          end
      | None => None
      end
  | UttEnd =>
      match synth w with
      | Some s =>
          match speaking s with
          | Some _ =>
              Some (exec (modify (set_synth
                              (Some {| voices := voices s;
                                       pending := pending s;
                                       speaking := None |})) ;;
                          utter_onend) w)
          | None => None
          end
      | None => None
      end
  | UttError =>
      match synth w with
      | Some s =>
          match speaking s, pending s with
          | Some _, _ =>
              Some (exec (modify (set_synth
                              (Some {| voices := voices s;
                                       pending := pending s;
                                       speaking := None |}))) w)
          | None, _ :: rest =>
              Some (exec (modify (set_synth
                              (Some {| voices := voices s; pending := rest;
                                       speaking := None |}))) w)
          | None, [] => None
          end
      | None => None
      end
  | TimerFire k =>
      match timers w !! k with
      | Some t =>
          Some (exec (modify (fun w => set_timers (delete k (timers w)) w) ;;
                      run_callback (t_callback t)) w)
      | None => None
      end
  end.

Fixpoint run (es : list event) (w : widget) : option widget :=
  match es with
  | [] => Some w
  | e :: es' =>
      match step e w with
      | Some w' => run es' w'
      | None => None
      end
  end.

(** *** Following one call of the relay *)

(** The browser answers the request that sits at place [k] of the pending
    ones with the next response of [rs], for as long as a request sits
    there. *)
Fixpoint answer (k : nat) (rs : list response) (w : widget) : widget :=
  match rs with
  | [] => w
  | r :: rs' =>
      match step (FetchDone k r) w with
      | Some w' => answer k rs' w'
      | None => w
      end
  end.

(** A call of [sendMessageToAPI] and the responses to the requests it
    makes; its first request goes behind those already pending. *)
Definition relay (text lang : jsstring) (triedRetry : bool)
    (rs : list response) (w : widget) : widget :=
  answer (length (inflight w)) rs
         (exec (sendMessageToAPI text lang triedRetry) w).

End WithStringCase.

(** *** Observations *)

(** The entries of the transcript view. *)
Definition transcript (w : widget) : list (role * jsstring) :=
  match box w with
  | Some d => messages d
  | None => []
  end.

Definition fetches (l : list action) : list (jsstring * jsstring) :=
  omap (fun a => match a with AFetch m lg => Some (m, lg) | _ => None end) l.

Definition speaks (l : list action) : list (jsstring * jsstring) :=
  omap (fun a => match a with ASpeakOut t lg => Some (t, lg) | _ => None end) l.

(** The variables of a call of the relay. *)
Definition the_request (text lang : jsstring) (triedRetry : bool) : request :=
  {| q_text := text; q_lang := lang; q_triedRetry := triedRetry |}.

(** The test of line 309 on the response a suspended call receives. *)
Definition retries (q : request) (r : response) : bool :=
  match r with
  | Http true (Json reply) =>
      streq (q_lang q) (js "kn") && LATIN_REGEX (or_else reply MSG_NO_REPLY)
      && negb (q_triedRetry q)
  | _ => false
  end.

(** The retry condition in the words of the specification: the locale is
    the secondary one, a reply was received that holds a letter of the
    Latin alphabet, and the call is not itself a retry.  (A reply is
    received with a response of success status and a readable body; the
    relay reads the body of no other response.) *)
Definition retry_expected (lang : jsstring) (triedRetry : bool)
    (r : response) : bool :=
  streq lang (js "kn")
  && match r with
     | Http true (Json (Some reply)) => LATIN_REGEX reply
     | _ => false
     end
  && negb triedRetry.

(** [v] is the first element of [vs] that satisfies [p]; no element of
    [vs] satisfies [p]. *)
Definition first_such {A} (p : A -> bool) (vs : list A) (v : A) : Prop :=
  exists pre post,
    vs = pre ++ v :: post /\ p v = true /\ Forall (fun x => p x = false) pre.

Definition none_such {A} (p : A -> bool) (vs : list A) : Prop :=
  Forall (fun x => p x = false) vs.

(** Both flags of the session state are up. *)
Definition both (w : widget) : bool := isListening w && isBotSpeaking w.

Definition utterance_event (e : event) : bool :=
  match e with
  | UttStart | UttEnd | UttError => true
  | _ => false
  end.

(** *** A page to run the widget on *)

(** A browser with speech recognition, a synthesis engine that offers no
    voice, working storage and no stored language. *)
Definition page : widget := loaded true false (Some []) None.

(** The state the events [es] lead to from [page]; [page] itself when the
    browser cannot deliver them. *)
Definition after (es : list event) : widget :=
  match @run asciiLowerCase es page with
  | Some w => w
  | None => page
  end.

(** *** The states the widget reaches *)

(** The states of the widget from the loading of the page on, under any
    events, in any browser that lets the script read localStorage: with
    or without speech recognition and synthesis, whatever is stored, and
    whether or not writing to localStorage throws. *)
Definition reachable `{StringCase} (w : widget) : Prop :=
  exists (sr fails : bool) (vs : option (list voice))
         (stored : option jsstring) (es : list event),
    run es (loaded sr fails vs stored) = Some w.

(** The badge shows the language that is current, and that language is
    held in [window.currentLang]. *)
Definition badge_agrees (w : widget) : Prop :=
  exists l, currentLang w = Some l /\ nonempty l = true /\
            badge <$> box w =
              Some (if streq l (js "kn") then js "KN" else js "EN").

(** The synthesis engine holds at most one utterance, queued or being
    spoken; the speaking flag is up while an utterance is spoken and down
    while one is queued. *)
Definition synth_consistent (w : widget) : Prop :=
  match synth w with
  | None => isBotSpeaking w = false
  | Some s =>
      match speaking s, pending s with
      | None, [] => True
      | None, [_] => isBotSpeaking w = false
      | Some _, [] => isBotSpeaking w = true
      | _, _ => False
      end
  end.

(** The speaking flag is up only while an utterance is spoken. *)
Definition flag_backed (w : widget) : Prop :=
  isBotSpeaking w = true ->
  exists s u, synth w = Some s /\ speaking s = Some u.

(** A request as the recognition handler makes them: some text, and one of
    the two locales. *)
Definition well_formed (text lang : jsstring) : Prop :=
  nonempty text = true /\ (lang = js "kn" \/ lang = js "en").

Definition requests_well_formed (w : widget) : Prop :=
  Forall (fun q => well_formed (q_text q) (q_lang q)) (inflight w) /\
  Forall (fun ml => exists text,
              well_formed text (snd ml) /\ fst ml = fullPrompt text (snd ml))
         (fetches (log w)).

End Widget.

(** ** The chatbot context of the backend (/api/cb-chat, /api/cb-clear) *)

Module Server.

Inductive role := user | assistant.

(** An element of [cbChatContext]. *)
Record entry := { e_role : role; content : jsstring; lang : jsstring }.

(** [req.body] of a request whose message and language, where it gives
    them, are JSON strings, as the pages of the repository send them; a
    field is [None] when the request leaves it out.  The handlers test
    both fields for truthiness only, so a request can also carry another
    JSON value there (an array, a number); such requests are outside
    this model. *)
Record body := { message : option jsstring; language : option jsstring }.

(** What a call of [chat.completions.create] brings back: it rejects, or
    [completion?.choices?.[0]?.message?.content] is there or not. *)
Inductive completion :=
| Failed
| Content (c : option jsstring).

Record response := { status : Z; reply : jsstring }.

(** The variables of a handler suspended at the model call. *)
Record suspended := { s_language : jsstring }.

(** [cbChatContext] and the handlers waiting for the model. *)
Record state :=
  { cbChatContext : list entry; awaiting : list suspended }.

Definition warn : jsstring := [9888; 65039; 32].

(** [completion?.choices?.[0]?.message?.content?.trim()], falsy when
    [None]. *)
Definition trimmed (c : completion) : option jsstring :=
  match c with
  | Content (Some out) =>
      if nonempty (trim out) then Some (trim out) else None
  | _ => None
  end.

(** [translateToEnglish(text)] once the key is known to be set: the
    trimmed answer of the model, the text itself when there is none or the
    call fails. *)
Definition translateToEnglish (text : jsstring) (c : completion) : jsstring :=
  match trimmed c with
  | Some out => out
  | None => text
  end.

(** [a.slice(-n)] *)
Definition slice_last {A} (n : nat) (a : list A) : list A :=
  skipn (length a - n) a.

(** Lines 331-336: the context is emptied when its first entry carries
    another language tag, then the user message is pushed. *)
Definition push_user (userMessage language : jsstring) (ctx : list entry)
  : list entry :=
  let ctx :=
    match ctx with
    | e0 :: _ =>
        if nonempty (lang e0) && negb (streq (lang e0) language)
        then [] else ctx
    | [] => ctx
    end in
  ctx ++ [{| e_role := user; content := userMessage; lang := language |}].

(** Lines 357-360: the reply is pushed and the context cut to its last
    ten entries. *)
Definition push_assistant (botReply language : jsstring) (ctx : list entry)
  : list entry :=
  let ctx :=
    ctx ++ [{| e_role := assistant; content := botReply; lang := language |}] in
  if (10 <? length ctx)%nat then slice_last 10 ctx else ctx.

(** The handler from its entry to the model call (lines 302-344).
    [translation] is what the translation call brings back, should the
    handler make it.  It answers at once ([inl]) or suspends ([inr]). *)
Definition cbChat_begin (apiKey : bool) (b : body) (translation : completion)
    (ctx : list entry) : (response + suspended) * list entry :=
  let userMessage := or_else (message b) [] in
  let language := or_else (language b) (js "en") in
  if negb (nonempty userMessage)
  then (inl {| status := 400; reply := js "Message required" |}, ctx)
  else if negb apiKey
  then (inl {| status := 500;
               reply := warn ++ js "Server configuration error. Contact admin." |},
        ctx)
  else
    let userMessage :=
      if streq language (js "en")
      then translateToEnglish userMessage translation
      else userMessage in
    (inr {| s_language := language |}, push_user userMessage language ctx).

(** The handler from the answer of the model on (lines 350-366). *)
Definition cbChat_finish (k : suspended) (c : completion) (ctx : list entry)
  : response * list entry :=
  match c with
  | Failed =>
      ({| status := 500; reply := js "Failed to connect to chatbot model." |},
       ctx)
  | Content _ =>
      match trimmed c with
      | None =>
          ({| status := 500; reply := warn ++ js "No response from model." |},
           ctx)
      | Some botReply =>
          ({| status := 200; reply := botReply |},
           push_assistant botReply (s_language k) ctx)
      end
  end.

(** A request handled with no other handler running in between. *)
Record exchange :=
  { x_body : body; x_translation : completion; x_answer : completion }.

Definition cbChat (apiKey : bool) (x : exchange) (ctx : list entry)
  : response * list entry :=
  match cbChat_begin apiKey (x_body x) (x_translation x) ctx with
  | (inl r, ctx') => (r, ctx')
  | (inr k, ctx') => cbChat_finish k (x_answer x) ctx'
  end.

Fixpoint serve (apiKey : bool) (xs : list exchange) (ctx : list entry)
  : list entry :=
  match xs with
  | [] => ctx
  | x :: xs' => serve apiKey xs' (snd (cbChat apiKey x ctx))
  end.

(** What reaches the server: a chat request (with the outcome of its
    translation call), the model's answer to the [k]-th suspended handler,
    a request to /api/cb-clear. *)
Inductive event :=
| Chat (b : body) (translation : completion)
| Answer (k : nat) (c : completion)
| Clear.

(** One event and the response it sends, if any. *)
Definition step (apiKey : bool) (e : event) (st : state)
  : option (state * option response) :=
  match e with
  | Chat b translation =>
      match cbChat_begin apiKey b translation (cbChatContext st) with
      | (inl r, ctx) =>
          Some ({| cbChatContext := ctx; awaiting := awaiting st |}, Some r)
      | (inr k, ctx) =>
          Some ({| cbChatContext := ctx; awaiting := awaiting st ++ [k] |},
                None)
      end
  | Answer k c =>
      match awaiting st !! k with
      | Some h =>
          let '(r, ctx) := cbChat_finish h c (cbChatContext st) in
          Some ({| cbChatContext := ctx; awaiting := delete k (awaiting st) |},
                Some r)
      | None => None
      end
  | Clear =>
      Some ({| cbChatContext := []; awaiting := awaiting st |}, None)
  end.

Fixpoint run (apiKey : bool) (es : list event) (st : state) : option state :=
  match es with
  | [] => Some st
  | e :: es' =>
      match step apiKey e st with
      | Some (st', _) => run apiKey es' st'
      | None => None
      end
  end.

Definition start : state := {| cbChatContext := []; awaiting := [] |}.

(** "ನಮಸ್ಕಾರ" *)
Definition namaskara : jsstring := [3240; 3246; 3256; 3277; 3221; 3262; 3248].


(** *** The endpoint of the voice assistant (/api/chat, lines 234-271) *)

(** The Kannada system prompt of /api/chat, a template literal of four lines. *)
Definition chatPromptKn : jsstring :=
  [3240; 3264; 3253; 3265; 32; 3218; 3244; 3277; 3244; 32; 3256; 3277; 3240;
   3271; 3257; 3245; 3248; 3263; 3236; 32; 3256; 3257; 3262; 3247; 3223;
   3262; 3248; 46; 32; 3209; 3236; 3277; 3236; 3248; 3223; 3251; 3265; 32;
   49; 48; 48; 37; 32; 3221; 3240; 3277; 3240; 3233; 3238; 3250; 3277; 3250;
   3263; 32; 3207; 3248; 3244; 3271; 3221; 3265; 44; 32; 3256; 3248; 3251;
   44; 32; 3238; 3272; 3240; 3202; 3238; 3263; 3240; 32; 3246; 3262; 3236;
   3265; 32; 3254; 3272; 3250; 3263; 3247; 3250; 3277; 3250; 3263; 44; 32;
   49; 45; 50; 32; 3253; 3262; 3221; 3277; 3247; 3223; 3251; 3250; 3277;
   3250; 3263; 32; 3221; 3274; 3233; 3263; 46; 32; 3207; 3202; 3223; 3277;
   3250; 3263; 3255; 3277; 32; 3242; 3238; 3223; 3251; 32; 3244; 3251; 3221;
   3270; 32; 3244; 3271; 3233; 46; 32; 3209; 3238; 3262; 3257; 3248; 3235;
   3270; 58; 10; 45; 32; 34; 3240; 3246; 3256; 3277; 3221; 3262; 3248; 44;
   32; 3257; 3271; 3223; 3263; 3238; 3277; 3238; 3264; 3248; 3262; 63; 32;
   3257; 3271; 3251; 3263; 44; 32; 3215; 3240; 3265; 32; 3256; 3257; 3262;
   3247; 32; 3244; 3271; 3221; 3265; 63; 34; 10; 45; 32; 34; 3256; 3248;
   3263; 44; 32; 3257; 3264; 3223; 3270; 32; 3246; 3262; 3233; 3263; 46; 32;
   3207; 3238; 3248; 3263; 3202; 3238; 32; 3256; 3246; 3256; 3277; 3247;
   3270; 32; 3256; 3248; 3263; 3247; 3262; 3223; 3244; 3257; 3265; 3238;
   3265; 46; 34; 10; 45; 32; 34; 3208; 32; 3253; 3263; 3255; 3247; 3238; 32;
   3244; 3223; 3277; 3223; 3270; 32; 3256; 3238; 3277; 3247; 32; 3240; 3240;
   3223; 3270; 32; 3246; 3262; 3257; 3263; 3236; 3263; 32; 3207; 3250; 3277;
   3250; 44; 32; 3238; 3247; 3253; 3263; 3231; 3277; 3231; 3265; 32; 3221;
   3226; 3271; 3248; 3263; 3247; 3250; 3277; 3250; 3263; 32; 3221; 3271;
   3251; 3263; 46; 34].

(** "⚠️ ಸಂಪರ್ಕದಲ್ಲಿ ದೋಷ. ದಯವಿಟ್ಟು ಮತ್ತೆ ಪ್ರಯತ್ನಿಸಿ." *)
Definition MSG_CHAT_ERROR : jsstring :=
  [9888; 65039; 32; 3256; 3202; 3242; 3248; 3277; 3221; 3238; 3250; 3277;
   3250; 3263; 32; 3238; 3275; 3255; 46; 32; 3238; 3247; 3253; 3263; 3231;
   3277; 3231; 3265; 32; 3246; 3236; 3277; 3236; 3270; 32; 3242; 3277; 3248;
   3247; 3236; 3277; 3240; 3263; 3256; 3263; 46].

(** "ಕ್ಷಮಿಸಿ — ಉತ್ತರ ಸಿಗಲಿಲ್ಲ." *)
Definition MSG_NO_ANSWER : jsstring :=
  [3221; 3277; 3255; 3246; 3263; 3256; 3263; 32; 8212; 32; 3209; 3236; 3277;
   3236; 3248; 32; 3256; 3263; 3223; 3250; 3263; 3250; 3277; 3250; 46].

Definition chatPromptEn : jsstring :=
  js "Reply in short, friendly English. Keep responses natural and helpful.".

(** The two messages handed to the model. *)
Record prompt := { p_system : jsstring; p_user : jsstring }.

(** The handler, for a request whose body is a JSON object: its response,
    and the prompt if it called the model.  [answer] is what the model
    call brings back. *)
Definition chat (apiKey : bool) (b : body) (answer : completion)
  : response * option prompt :=
  match message b, language b with
  | Some m, Some l =>
      if negb (nonempty m) || negb (nonempty l)
      then ({| status := 400; reply := js "Invalid request" |}, None)
      else
        let systemPrompt :=
          if streq l (js "kn") then chatPromptKn else chatPromptEn in
        if negb apiKey
        then ({| status := 500;
                 reply := warn ++ js "Server configuration error. Contact admin." |},
              None)
        else
          let p := {| p_system := systemPrompt; p_user := m |} in
          match answer with
          | Failed => ({| status := 500; reply := MSG_CHAT_ERROR |}, Some p)
          | Content _ =>
              ({| status := 200;
                  reply := match trimmed answer with
                           | Some r => r
                           | None => MSG_NO_ANSWER
                           end |},
               Some p)
          end
  | _, _ => ({| status := 400; reply := js "Invalid request" |}, None)
  end.

(** *** The body parser (line 17) *)

(** What [express.json()] makes of a request before any handler runs: it
    hands on the body it has parsed, or it refuses the request with an
    error, and then no handler runs and Express answers with the status
    of the error and its own error page: 413 for a body over the limit of
    100 kB, 400 for a body that is no JSON text. *)
Inductive parsed := Refused (error : Z) | Body (b : body).

(** What the client gets: the error page of Express, or the JSON
    response of the handler. *)
Inductive served := ErrorPage (error : Z) | Handled (r : response).

Definition code (s : served) : Z :=
  match s with
  | ErrorPage error => error
  | Handled r => status r
  end.

(** POST /api/chat, from the parser on. *)
Definition post_chat (apiKey : bool) (p : parsed) (answer : completion)
  : served * option prompt :=
  match p with
  | Refused error => (ErrorPage error, None)
  | Body b => (Handled (fst (chat apiKey b answer)),
               snd (chat apiKey b answer))
  end.

(** The messages and the language tags held by the server are never
    empty. *)
Definition filled (st : state) : Prop :=
  Forall (fun e => nonempty (content e) = true /\ nonempty (lang e) = true)
         (cbChatContext st) /\
  Forall (fun h => nonempty (s_language h) = true) (awaiting st).

End Server.

(** ** One-time codes for the password reset (/api/forgot-password,
       /api/verify-otp) *)

(** Both handlers await: one the SELECT and the delivery, the other the
    hash of the password and the UPDATE.  /api/forgot-password touches
    the store at one point only, the assignment of line 158, so it is one
    function whose oracles are the outcomes of its awaits.
    /api/verify-otp reads the store before its awaits and deletes from it
    after them; it is cut there into two functions, and other requests can
    be served between the two. *)

Module Otp.

(** A value of [otpStore]. *)
Record entry := { otp : jsstring; expiresAt : Z }.

(** [otpStore], an ordinary object used as a map from identifiers to
    entries: its own properties, and the entry that an assignment to the
    key "__proto__" has made its prototype, if any. *)
Record store := { own : gmap jsstring entry; proto : option entry }.

Definition empty : store := {| own := ∅; proto := None |}.

Definition PROTO : jsstring := js "__proto__".

(** [otpStore[k] = v]: the key "__proto__" names the accessor of
    Object.prototype, so the assignment sets the prototype and creates no
    property. *)
Definition put (k : jsstring) (v : entry) (st : store) : store :=
  if streq k PROTO then {| own := own st; proto := Some v |}
  else {| own := <[k := v]> (own st); proto := proto st |}.

(** [otpStore[k]], as far as [verify-otp] can tell: the entry stored
    under [k].  (What a key can inherit otherwise is no entry: it has no
    [otp] field, and the handler answers as for a missing key.) *)
Definition get (k : jsstring) (st : store) : option entry :=
  if streq k PROTO then proto st else own st !! k.

(** [delete otpStore[k]] removes an own property only. *)
Definition remove (k : jsstring) (st : store) : store :=
  if streq k PROTO then st
  else {| own := delete k (own st); proto := proto st |}.

(** The outcome of the SELECT: it throws, or tells whether a row
    matched. *)
Inductive query := QueryFailed | Rows (found : bool).

(** The outcome of the delivery: the message was taken; the service said
    no (the e-mail send rejects, the SMS gateway answers without success);
    the call to the SMS gateway itself failed. *)
Inductive delivery := Sent | Refused | Broken.

(** A response: its status and its [error] or [message] text. *)
Record response := { status : Z; text : jsstring }.

(** /api/forgot-password.  [code] is the code the handler draws with
    [Math.random], [now] the value of [Date.now()]. *)
Definition forgot_password (identifier : option jsstring) (q : query)
    (code : jsstring) (now : Z) (d : delivery) (st : store)
  : response * store :=
  match identifier with
  | None => ({| status := 400; text := js "Identifier required" |}, st)
  | Some id =>
      if negb (nonempty id)
      then ({| status := 400; text := js "Identifier required" |}, st)
      else
        match q with
        | QueryFailed =>
            ({| status := 500; text := js "Internal server error" |}, st)
        | Rows false =>
            ({| status := 400; text := js "User not found" |}, st)
        | Rows true =>
            let st' :=
              put id {| otp := code; expiresAt := now + 10 * 60 * 1000 |} st in
            if includes id (js "@") then
              match d with
              | Sent =>
                  ({| status := 200; text := js "OTP sent successfully" |}, st')
              | _ =>
                  ({| status := 500; text := js "Failed to send OTP email" |},
                   st')
              end
            else
              match d with
              | Sent =>
                  ({| status := 200; text := js "OTP sent successfully" |}, st')
              | Refused =>
                  ({| status := 500; text := js "Could not send OTP" |}, st')
              | Broken =>
                  ({| status := 500; text := js "Internal server error" |}, st')
              end
        end
  end.

(** /api/verify-otp up to its awaits (lines 207-216): the checks.  The
    handler answers at once ([inl]), or goes on to hash the password and
    to update the database, holding the identifier ([inr]). *)
Definition verify_otp_begin (identifier code newPassword : option jsstring)
    (now : Z) (st : store) : response + jsstring :=
  match identifier, code, newPassword with
  | Some id, Some c, Some pw =>
      if negb (nonempty id) || negb (nonempty c) || negb (nonempty pw)
      then inl {| status := 400; text := js "All fields required" |}
      else
        match get id st with
        | None => inl {| status := 400; text := js "Invalid OTP" |}
        | Some record =>
            if negb (streq (otp record) c)
            then inl {| status := 400; text := js "Invalid OTP" |}
            else if expiresAt record <? now
            then inl {| status := 400; text := js "OTP expired" |}
            else inr id
        end
  | _, _, _ => inl {| status := 400; text := js "All fields required" |}
  end.

(** /api/verify-otp from the end of its awaits on (lines 224-229).
    [updated] tells whether hashing the password and the UPDATE went
    through. *)
Definition verify_otp_finish (id : jsstring) (updated : bool) (st : store)
  : response * store :=
  if updated
  then ({| status := 200; text := js "Password reset successful" |},
        remove id st)
  else ({| status := 500; text := js "Internal server error" |}, st).

(** /api/verify-otp when no other request is served while it waits. *)
Definition verify_otp (identifier code newPassword : option jsstring)
    (now : Z) (updated : bool) (st : store) : response * store :=
  match verify_otp_begin identifier code newPassword now st with
  | inl r => (r, st)
  | inr id => verify_otp_finish id updated st
  end.

End Otp.

(** ** The widget and its server *)

(** What [fetch] hands to the widget for a response of the server:
    [response.ok] is a status from 200 to 299; the body of a handler's
    response is the JSON object with the reply, that of an error page is
    no JSON text. *)
Definition delivered (r : Server.served) : Widget.response :=
  match r with
  | Server.ErrorPage error =>
      Widget.Http ((200 <=? error) && (error <=? 299)) Widget.BadBody
  | Server.Handled r =>
      Widget.Http ((200 <=? Server.status r) && (Server.status r <=? 299))
                  (Widget.Json (Some (Server.reply r)))
  end.

(** * Verification *)

Import Widget.

(** ** The language detector *)

Lemma utf16_unit_kannada cp :
  existsb (in_range 3200 3327) (utf16_unit cp) = kannada_cp cp.
Proof.
  unfold utf16_unit, kannada_cp, in_range.
  destruct (Z.ltb_spec cp 65536) as [Hlt|Hge]; simpl.
  - now rewrite orb_false_r.
  - assert (0 <= Z.shiftr (cp - 65536) 10) by (apply Z.shiftr_nonneg; lia).
    assert (0 <= Z.land (cp - 65536) 1023) by (apply Z.land_nonneg; lia).
    repeat match goal with
           | |- context [?a <=? ?b] => destruct (Z.leb_spec a b); try lia
           end; reflexivity.
Qed.

Lemma KANNADA_REGEX_utf16 cps :
  KANNADA_REGEX (utf16 cps) = existsb kannada_cp cps.
Proof.
  unfold KANNADA_REGEX, utf16.
  induction cps as [|cp cps IH]; [reflexivity|].
  cbn [flat_map existsb]. rewrite existsb_app, utf16_unit_kannada.
  now f_equal.
Qed.

Lemma existsb_kannada_nil cps :
  utf16 cps = [] -> existsb kannada_cp cps = false.
Proof.
  intros E. rewrite <- KANNADA_REGEX_utf16, E. reflexivity.
Qed.

Lemma ascii_not_kannada cps :
  forallb ascii_cp cps = true -> existsb kannada_cp cps = false.
Proof.
  induction cps as [|cp cps IH]; [reflexivity|].
  cbn [forallb existsb]. intros [Ha Hr]%andb_prop.
  rewrite (IH Hr), orb_false_r.
  unfold ascii_cp in Ha. unfold kannada_cp.
  apply andb_prop in Ha as [_ Ha]. apply Z.leb_le in Ha.
  destruct (Z.leb_spec 3200 cp); [lia | reflexivity].
Qed.

Example detect_namaskara :
  detectLangFromText (Some Server.namaskara) = js "kn".
Proof. reflexivity. Qed.

Example detect_mixed :
  detectLangFromText (Some (js "ok " ++ Server.namaskara)) = js "kn".
Proof. reflexivity. Qed.

Example detect_hello : detectLangFromText (Some (js "hello")) = js "en".
Proof. reflexivity. Qed.

(** A code point outside the basic plane (U+1F600) becomes two surrogates,
    neither of them in the Kannada block. *)
Example detect_emoji :
  utf16 [128512] = [55357; 56832] /\
  detectLangFromText (Some (utf16 [128512])) = js "en".
Proof. split; reflexivity. Qed.

(** C3. [detectLangFromText] is a total function of its argument alone: on
    a text that holds a code point of the Kannada block it answers "kn", on
    every other text, the empty and the absent one included, it answers
    "en"; all-ASCII text is a case of the latter. *)
Theorem detectLangFromText_spec :
  (forall cps : list Z,
      detectLangFromText (Some (utf16 cps)) =
      if existsb kannada_cp cps then js "kn" else js "en") /\
  (forall cps : list Z,
      forallb ascii_cp cps = true ->
      detectLangFromText (Some (utf16 cps)) = js "en") /\
  detectLangFromText (Some []) = js "en" /\
  detectLangFromText None = js "en".
Proof.
  assert (H : forall cps, detectLangFromText (Some (utf16 cps)) =
                          if existsb kannada_cp cps then js "kn" else js "en").
  { intros cps. unfold detectLangFromText.
    destruct (utf16 cps) as [|c s] eqn:E.
    - simpl. now rewrite (existsb_kannada_nil cps E).
    - cbn [nonempty negb]. rewrite <- E, KANNADA_REGEX_utf16. reflexivity. }
  repeat split; try reflexivity; [exact H|].
  intros cps Ha. rewrite H, (ascii_not_kannada cps Ha). reflexivity.
Qed.

(** ** Stopping twice *)

Lemma alter_idem {A} (f : A -> A) (i : nat) (l : list A) :
  (forall x, f (f x) = f x) -> alter f i (alter f i l) = alter f i l.
Proof.
  intros Hf. revert i.
  induction l as [|x l IH]; intros [|i]; cbn; try reflexivity.
  - now rewrite Hf.
  - f_equal. apply IH.
Qed.

Lemma stop_flag_idem (s : session) :
  let f s := if running s then set_phase (r_phase s) true s else s in
  f (f s) = f s.
Proof. destruct s as [l e r [] st]; reflexivity. Qed.

Lemma stopListening_twice (w : widget) :
  fst (stopListening w) = Ok tt /\
  stopListening (exec stopListening w) = (Ok tt, exec stopListening w) /\
  isListening (exec stopListening w) = false.
Proof.
  destruct w as [r l sp was cl sl bx ss sy ts fl lg sr sf].
  destruct r as [i|]; destruct bx as [d|]; cbn.
  all: repeat split; try reflexivity.
  all: unfold set_sessions, set_isListening, set_box; cbn.
  all: try rewrite alter_idem by apply stop_flag_idem; reflexivity.
Qed.

Lemma stopSpeaking_twice (w : widget) :
  fst (stopSpeaking w) = Ok tt /\
  stopSpeaking (exec stopSpeaking w) = (Ok tt, exec stopSpeaking w) /\
  isBotSpeaking (exec stopSpeaking w) = false /\
  busy <$> synth (exec stopSpeaking w) <> Some true.
Proof.
  destruct w as [r l sp was cl sl bx ss sy ts fl lg sr sf].
  destruct sy as [[vs [|u q] [u'|]]|]; cbn.
  all: repeat split; try reflexivity; discriminate.
Qed.

(** C9. [stopListening] and [stopSpeaking] can be called twice in a row
    from any state, whether or not a recognition object or a synthesis
    engine exists: each call returns without throwing, the second call
    changes nothing, and afterwards the widget is not listening,
    respectively not speaking with nothing left in the synthesis queue. *)
Theorem stop_twice (w : widget) :
  (fst (stopListening w) = Ok tt /\
   stopListening (exec stopListening w) = (Ok tt, exec stopListening w) /\
   isListening (exec stopListening w) = false) /\
  (fst (stopSpeaking w) = Ok tt /\
   stopSpeaking (exec stopSpeaking w) = (Ok tt, exec stopSpeaking w) /\
   isBotSpeaking (exec stopSpeaking w) = false /\
   busy <$> synth (exec stopSpeaking w) <> Some true).
Proof. split; [apply stopListening_twice | apply stopSpeaking_twice]. Qed.

(** ** Voice selection *)

Section Find.
Context {A : Type} (p : A -> bool).

Lemma find_first_such (vs : list A) (v : A) :
  find p vs = Some v -> first_such p vs v.
Proof.
  induction vs as [|x vs IH]; cbn; [discriminate|].
  destruct (p x) eqn:Hx.
  - intros [= ->]. exists [], vs. repeat split; auto.
  - intros Hf. destruct (IH Hf) as (pre & post & -> & Hv & Hpre).
    exists (x :: pre), post. repeat split; auto.
Qed.

Lemma find_none_such (vs : list A) :
  find p vs = None -> none_such p vs.
Proof.
  induction vs as [|x vs IH]; cbn; [constructor|].
  destruct (p x) eqn:Hx; [discriminate|].
  intros Hf. constructor; auto. exact (IH Hf).
Qed.

End Find.

Lemma speakOut_enqueues `{SC : StringCase} (text lang : jsstring) (w : widget) :
  match synth w with
  | Some s =>
      synth (exec (speakOut text lang) w) =
      Some {| voices := voices s;
              pending :=
                [{| u_text := text;
                    u_lang := if streq lang (js "kn") then js "kn-IN"
                              else js "en-IN";
                    u_voice := selectFemaleVoiceForLang (voices s) lang |}];
              speaking := None |}
  | None => synth (exec (speakOut text lang) w) = None
  end.
Proof.
  destruct w as [r l sp was cl sl bx ss sy ts fl lg sr sf].
  destruct sy as [[vs [|u q] [u'|]]|]; reflexivity.
Qed.

Example select_en :
  let david := {| v_name := js "Microsoft David"; v_lang := js "en-US" |} in
  let zira := {| v_name := js "Microsoft Zira"; v_lang := js "en-US" |} in
  let hemant := {| v_name := js "Microsoft Hemant"; v_lang := js "hi-IN" |} in
  @selectFemaleVoiceForLang asciiLowerCase [david; zira; hemant] (js "en")
    = Some zira /\
  @selectFemaleVoiceForLang asciiLowerCase [david; hemant] (js "en")
    = Some david /\
  @selectFemaleVoiceForLang asciiLowerCase [david; zira; hemant] (js "kn")
    = Some zira /\
  @selectFemaleVoiceForLang asciiLowerCase [hemant; david] (js "kn")
    = Some hemant /\
  @selectFemaleVoiceForLang asciiLowerCase [] (js "kn") = None.
Proof. vm_compute. repeat split; reflexivity. Qed.

(** C8. The voice [speakOut] gives the utterance is chosen in layers, each
    tried only when the ones before found nothing: the first voice whose
    locale matches and whose name holds a hint; the first voice whose
    locale matches; the first voice whose name holds a hint; the first
    voice; no voice.  Whatever the choice, with none included, the
    utterance is handed to the synthesis engine. *)
Theorem selectFemaleVoiceForLang_layers `{SC : StringCase}
    (vs : list voice) (lang : jsstring) :
  let matched v := localeMatches lang v && nameHinted v in
  let chosen := selectFemaleVoiceForLang vs lang in
  ((exists v, first_such matched vs v /\ chosen = Some v) \/
   (none_such matched vs /\
    exists v, first_such (localeMatches lang) vs v /\ chosen = Some v) \/
   (none_such (localeMatches lang) vs /\
    exists v, first_such nameHinted vs v /\ chosen = Some v) \/
   (none_such (localeMatches lang) vs /\ none_such nameHinted vs /\
    exists v rest, vs = v :: rest /\ chosen = Some v) \/
   (vs = [] /\ chosen = None)) /\
  (forall (text : jsstring) (w : widget)
          (q : list utterance) (u : option utterance),
      synth w = Some {| voices := vs; pending := q; speaking := u |} ->
      synth (exec (speakOut text lang) w) =
      Some {| voices := vs;
              pending :=
                [{| u_text := text;
                    u_lang := if streq lang (js "kn") then js "kn-IN"
                              else js "en-IN";
                    u_voice := chosen |}];
              speaking := None |}).
Proof.
  intros matched chosen. split.
  - subst chosen. unfold selectFemaleVoiceForLang. fold matched.
    destruct (find matched vs) as [v|] eqn:E1.
    { left. exists v. split; [now apply find_first_such | reflexivity]. }
    apply find_none_such in E1.
    destruct (find (localeMatches lang) vs) as [v|] eqn:E2.
    { right; left. split; [exact E1|]. exists v.
      split; [now apply find_first_such | reflexivity]. }
    apply find_none_such in E2.
    destruct (find nameHinted vs) as [v|] eqn:E3.
    { right; right; left. split; [exact E2|]. exists v.
      split; [now apply find_first_such | reflexivity]. }
    apply find_none_such in E3.
    destruct vs as [|v rest].
    + right; right; right; right. split; reflexivity.
    + right; right; right; left. repeat split; auto. now exists v, rest.
  - intros text w q u Hs.
    pose proof (speakOut_enqueues text lang w) as Hq. rewrite Hs in Hq.
    exact Hq.
Qed.

(** ** The relay *)

Section Relay.
Context `{SC : StringCase}.

Lemma step_FetchDone_last (w : widget) (fl : list request) (q : request)
    (r : response) :
  inflight w = fl ++ [q] ->
  step (FetchDone (length fl) r) w =
  Some (exec (sendMessageToAPI_resume q r) (set_inflight fl w)).
Proof.
  intros E. unfold step. rewrite E, list_lookup_middle by reflexivity.
  f_equal. unfold exec, bind, modify. cbn. rewrite E, delete_middle, app_nil_r.
  reflexivity.
Qed.

Lemma answer_idle (k : nat) (rs : list response) (w : widget) :
  (length (inflight w) <= k)%nat -> answer k rs w = w.
Proof.
  intros Hk. destruct rs as [|r rs]; [reflexivity|].
  cbn [answer]. unfold step. now rewrite lookup_ge_None_2.
Qed.

Lemma relay_first (text lang : jsstring) (t : bool) (r : response)
    (rs : list response) (w : widget) :
  relay text lang t (r :: rs) w =
  answer (length (inflight w)) rs
    (exec (sendMessageToAPI_resume (the_request text lang t) r)
          (set_log (log w ++ [AFetch (fullPrompt text lang) lang]) w)).
Proof.
  unfold relay. cbn [answer].
  rewrite (step_FetchDone_last _ (inflight w) (the_request text lang t)).
  - destruct w; reflexivity.
  - destruct w; reflexivity.
Qed.

Lemma LATIN_REGEX_reply (reply : option jsstring) :
  LATIN_REGEX (or_else reply MSG_NO_REPLY) =
  match reply with Some s => LATIN_REGEX s | None => false end.
Proof. destruct reply as [[|c s]|]; reflexivity. Qed.

Lemma retries_expected (text lang : jsstring) (t : bool) (r : response) :
  retries (the_request text lang t) r = retry_expected lang t r.
Proof.
  unfold retries, retry_expected.
  destruct r as [|[] [|[s|]]]; cbn [q_lang q_triedRetry the_request];
    rewrite ?LATIN_REGEX_reply, ?andb_false_r; reflexivity.
Qed.

Lemma fetches_snoc (l : list action) (a : action) :
  fetches (l ++ [a]) =
  fetches l ++ match a with AFetch m lg => [(m, lg)] | _ => [] end.
Proof. unfold fetches. rewrite omap_app. destruct a; reflexivity. Qed.

Lemma speaks_snoc (l : list action) (a : action) :
  speaks (l ++ [a]) =
  speaks l ++ match a with ASpeakOut m lg => [(m, lg)] | _ => [] end.
Proof. unfold speaks. rewrite omap_app. destruct a; reflexivity. Qed.

(** A response that calls for the retry: the request goes out again, with
    the flag set, and nothing else happens. *)
Lemma resume_retry (q : request) (r : response) (w : widget) :
  retries q r = true ->
  exec (sendMessageToAPI_resume q r) w =
  set_inflight
    (inflight w ++ [the_request (q_text q) (q_lang q) true])
    (set_log (log w ++ [AFetch (fullPrompt (q_text q) (q_lang q)) (q_lang q)])
             w).
Proof.
  unfold retries. destruct r as [|[] [|reply]]; try discriminate.
  intros E. unfold sendMessageToAPI_resume. cbn zeta. rewrite E.
  destruct w; reflexivity.
Qed.

(** Any other response ends the call: no request is made or left
    pending. *)
Lemma resume_final (q : request) (r : response) (w : widget) :
  retries q r = false ->
  inflight (exec (sendMessageToAPI_resume q r) w) = inflight w /\
  fetches (log (exec (sendMessageToAPI_resume q r) w)) = fetches (log w).
Proof.
  unfold retries, sendMessageToAPI_resume.
  destruct w as [rc l sp was cl sl bx ss sy ts fl lg sr sf].
  destruct r as [|[] [|reply]]; cbn zeta; intros E; try rewrite E.
  all: destruct sy as [[vs [|u q'] [u'|]]|]; cbn;
    rewrite ?fetches_snoc, ?app_nil_r; split; reflexivity.
Qed.

(** A reply that is accepted goes to the transcript and to [speakOut],
    once each. *)
Lemma resume_accept (q : request) (reply : option jsstring) (w : widget) :
  retries q (Http true (Json reply)) = false ->
  let w' := exec (sendMessageToAPI_resume q (Http true (Json reply))) w in
  box w' = (fun d => set_messages
              (messages d ++ [(Bot, or_else reply MSG_NO_REPLY)]) d) <$> box w /\
  log w' = log w ++ [ASpeakOut (or_else reply MSG_NO_REPLY) (q_lang q)].
Proof.
  unfold retries, sendMessageToAPI_resume.
  destruct w as [rc l sp was cl sl bx ss sy ts fl lg sr sf].
  cbn zeta; intros E; rewrite E.
  destruct sy as [[vs [|u q'] [u'|]]|]; cbn; split; reflexivity.
Qed.

(** A response with a status outside 2xx puts the connection error in the
    transcript, and that is all. *)
Lemma resume_not_ok (q : request) (b : body) (w : widget) :
  exec (sendMessageToAPI_resume q (Http false b)) w =
  exec (addMessage Bot MSG_CONNECTION_ERROR) w.
Proof. reflexivity. Qed.

(** The whole course of a call that gets at least one response. *)
Lemma relay_outcome (text lang : jsstring) (t : bool) (r1 : response)
    (rs : list response) (w : widget) :
  let sent w := set_log (log w ++ [AFetch (fullPrompt text lang) lang]) w in
  relay text lang t (r1 :: rs) w =
  if retries (the_request text lang t) r1 then
    match rs with
    | [] => set_inflight (inflight w ++ [the_request text lang true])
                         (sent (sent w))
    | r2 :: _ =>
        exec (sendMessageToAPI_resume (the_request text lang true) r2)
             (sent (sent w))
    end
  else exec (sendMessageToAPI_resume (the_request text lang t) r1) (sent w).
Proof.
  intros sent. rewrite relay_first. fold (sent w).
  destruct (retries (the_request text lang t) r1) eqn:E.
  - rewrite (resume_retry _ _ _ E). cbn [q_text q_lang the_request].
    destruct rs as [|r2 rs]; [destruct w; reflexivity|].
    cbn [answer].
    rewrite (step_FetchDone_last _ (inflight w) (the_request text lang true))
      by (destruct w; reflexivity).
    replace (set_inflight (inflight w) _) with (sent (sent w))
      by (destruct w; reflexivity).
    apply answer_idle.
    assert (R : retries (the_request text lang true) r2 = false).
    { unfold retries. destruct r2 as [|[] [|?]]; cbn; auto using andb_false_r. }
    destruct (resume_final _ r2 (sent (sent w)) R) as [-> _].
    destruct w; cbn; lia.
  - apply answer_idle.
    destruct (resume_final _ r1 (sent w) E) as [-> _].
    destruct w; cbn; lia.
Qed.

End Relay.

(** C6. When the response to the relay's request has a status outside 2xx,
    the call ends there: the transcript gains exactly one entry, the
    connection error in the bot role; the only thing that left the script
    is the request itself, so [speakOut] is not entered and no second
    request is made, whatever arrives afterwards; and no request of the
    call stays pending. *)
Theorem relay_not_ok `{SC : StringCase} (text lang : jsstring)
    (triedRetry : bool) (b : body) (rs : list response) (w : widget)
    (d : dom) :
  box w = Some d ->
  let w' := relay text lang triedRetry (Http false b :: rs) w in
  transcript w' = messages d ++ [(Bot, MSG_CONNECTION_ERROR)] /\
  log w' = log w ++ [AFetch (fullPrompt text lang) lang] /\
  speaks (log w') = speaks (log w) /\
  fetches (log w') = fetches (log w) ++ [(fullPrompt text lang, lang)] /\
  inflight w' = inflight w.
Proof.
  intros Hd w'. subst w'. rewrite relay_outcome. cbn [retries].
  rewrite resume_not_ok.
  destruct w as [rc l sp was cl sl bx ss sy ts fl lg sr sf].
  cbn in Hd. subst bx. cbn.
  rewrite speaks_snoc, fetches_snoc, app_nil_r. repeat split; reflexivity.
Qed.

(** C2. A call of the relay makes its request a second time exactly when
    the locale is "kn", the reply received holds a Latin letter and the
    call is not itself a retry; otherwise it makes the one request.  It
    never makes a third.  After a retry, the reply that arrives second is
    the one appended to the transcript and spoken, and the first appears
    in neither.  For any locale other than "kn", "en" in particular, there
    is no retry whatever the reply holds. *)
Theorem relay_retry_policy `{SC : StringCase} (text lang : jsstring)
    (triedRetry : bool) (r1 : response) (rs : list response) (w : widget) :
  let w' := relay text lang triedRetry (r1 :: rs) w in
  let req := (fullPrompt text lang, lang) in
  fetches (log w') =
    fetches (log w) ++
    (if retry_expected lang triedRetry r1 then [req; req] else [req]) /\
  (forall (reply2 : option jsstring) (rs' : list response),
      retry_expected lang triedRetry r1 = true ->
      rs = Http true (Json reply2) :: rs' ->
      transcript w' =
        transcript w ++
        match box w with
         | Some _ => [(Bot, or_else reply2 MSG_NO_REPLY)]
         | None => []
         end /\
      speaks (log w') =
        speaks (log w) ++ [(or_else reply2 MSG_NO_REPLY, lang)] /\
      inflight w' = inflight w) /\
  (streq lang (js "kn") = false -> fetches (log w') = fetches (log w) ++ [req]).
Proof.
  intros w' req.
  assert (F : fetches (log w') =
              fetches (log w) ++
              (if retry_expected lang triedRetry r1 then [req; req] else [req])).
  { subst w'. rewrite relay_outcome, (retries_expected text lang triedRetry r1).
    destruct (retry_expected lang triedRetry r1) eqn:E.
    - destruct rs as [|r2 rs].
      + destruct w; cbn. rewrite !fetches_snoc, <- app_assoc. reflexivity.
      + assert (R : retries (the_request text lang true) r2 = false).
        { unfold retries. destruct r2 as [|[] [|?]]; cbn; auto using andb_false_r. }
        match goal with |- context [exec ?m ?v] =>
          destruct (resume_final _ r2 v R) as [_ ->] end.
        destruct w; cbn. rewrite !fetches_snoc, <- app_assoc. reflexivity.
    - rewrite <- (retries_expected text) in E.
      match goal with |- context [exec ?m ?v] =>
        destruct (resume_final _ r1 v E) as [_ ->] end.
      destruct w; cbn. rewrite !fetches_snoc. reflexivity. }
  split; [exact F|]. split.
  - intros reply2 rs' E ->. subst w'.
    rewrite relay_outcome, (retries_expected text lang triedRetry r1), E.
    assert (R : retries (the_request text lang true)
                        (Http true (Json reply2)) = false).
    { unfold retries. cbn. auto using andb_false_r. }
    match goal with |- context [exec ?m ?v] =>
      pose proof (resume_accept _ reply2 v R) as [Hb Hl];
      pose proof (resume_final _ _ v R) as [Hi _] end.
    cbn zeta in Hb, Hl. unfold transcript. rewrite Hb, Hl, Hi.
    destruct w as [rc l sp was cl sl [bx|] ss sy ts fl lg sr sf]; cbn;
      rewrite !speaks_snoc, !app_nil_r; repeat split; reflexivity.
  - intros E. rewrite F. unfold retry_expected. now rewrite E.
Qed.

(** ** Relations that every computation of the script maintains *)

(** A reflexive and transitive relation between the state before and the
    state after. *)
Record frame :=
  { rel :> widget -> widget -> Prop;
    rel_refl : forall w, rel w w;
    rel_trans : forall a b c, rel a b -> rel b c -> rel a c }.

Definition respects (F : frame) {A} (m : M A) : Prop :=
  forall w, F w (snd (m w)).

Section Frame.
Variable F : frame.

Lemma respects_ret {A} (a : A) : respects F (ret a).
Proof. intros w. apply rel_refl. Qed.

Lemma respects_throw {A} (e : exn) : respects F (@throw A e).
Proof. intros w. apply rel_refl. Qed.

Lemma respects_gets {A} (f : widget -> A) : respects F (gets f).
Proof. intros w. apply rel_refl. Qed.

Lemma respects_modify (g : widget -> widget) :
  (forall w, F w (g w)) -> respects F (modify g).
Proof. intros Hg w. apply Hg. Qed.

Lemma respects_bind {A B} (m : M A) (k : A -> M B) :
  respects F m -> (forall a, respects F (k a)) -> respects F (bind m k).
Proof.
  intros Hm Hk w. unfold bind. specialize (Hm w).
  destruct (m w) as [[a|e] w1]; cbn in *; [|exact Hm].
  eapply rel_trans; [exact Hm | apply Hk].
Qed.

Lemma respects_try_catch {A} (m : M A) (h : exn -> M A) :
  respects F m -> (forall e, respects F (h e)) -> respects F (try_catch m h).
Proof.
  intros Hm Hh w. unfold try_catch. specialize (Hm w).
  destruct (m w) as [[a|e] w1]; cbn in *; [exact Hm|].
  eapply rel_trans; [exact Hm | apply Hh].
Qed.

Lemma respects_when (b : bool) (m : M unit) :
  respects F m -> respects F (when b m).
Proof. intros Hm. destruct b; [exact Hm | apply respects_ret]. Qed.

Lemma respects_exec {A} (m : M A) (w : widget) :
  respects F m -> F w (exec m w).
Proof. intros Hm. apply Hm. Qed.

End Frame.

Create HintDb widget.

#[local] Hint Unfold
  console alert on_box localStorage_setItem saveLang updateLangBadge
  addMessage clearChat mic_on mic_off on_session session_stop session_start
  recognition_call recreateRecognition initRecognition ensureRecognition
  startListening stopListening toggleListening stopSpeaking
  speakOut fetch api_catch sendMessageToAPI sendMessageToAPI_resume
  rec_onresult rec_onerror rec_onend langBadge_onclick closeBtn_onclick
  voiceAssistantBtn_onclick run_callback utter_onstart utter_onend
  rec_onstart setTimeout : widget.

(** Takes a computation apart along its combinators; [prim] settles the
    state updates at the leaves. *)
Ltac frame_step prim :=
  first
    [ apply respects_ret
    | apply respects_throw
    | apply respects_gets
    | apply respects_when
    | apply respects_bind; [|intros ?]
    | apply respects_try_catch; [|intros ?]
    | apply respects_modify; intros ?; solve [prim]
    | match goal with
      | |- respects _ (let _ := _ in _) => cbv zeta
      | |- respects _ (match ?x with _ => _ end) => destruct x
      | |- respects _ (if ?b then _ else _) => destruct b
      end
    | progress autounfold with widget ].

Ltac frame prim := repeat frame_step prim.

(** The observation [f] of the state does not change. *)
Definition keeping {B} (f : widget -> B) : frame :=
  {| rel w w' := f w' = f w;
     rel_refl := fun _ => eq_refl;
     rel_trans := fun a b c H1 H2 => eq_trans H2 H1 |}.




(** The two flags do not come to be up together. *)
Definition flags_apart : frame :=
  {| rel w w' := both w' = true -> both w = true;
     rel_refl := fun _ H => H;
     rel_trans := fun a b c H1 H2 H => H1 (H2 H) |}.

Section Steps.
Context `{SC : StringCase}.



Lemma step_flags_apart (e : event) (w w' : widget) :
  (forall i, e <> RecStart i) -> step e w = Some w' ->
  both w' = true -> both w = true.
Proof.
  intros He Hs. change (flags_apart w w').
  destruct e; try (now contradiction (He i)); cbn [step] in Hs;
    repeat case_match; simplify_eq.
  all: try solve [apply respects_exec;
                  frame ltac:(cbv [rel flags_apart both]; cbn;
                              rewrite ?andb_false_r;
                              first [discriminate | intros Hb; exact Hb])].
  (* UttStart: the handler itself takes listening down *)
  cbv [rel flags_apart both].
  destruct w as [[?|] ? ? ? ? ? [?|] ? ? ? ? ? ? ?]; cbn; discriminate.
Qed.


Lemma utter_onstart_effect (w : widget) :
  let w' := exec utter_onstart w in
  isBotSpeaking w' = true /\ isListening w' = false /\
  wasListeningBeforeSpeak w' = isListening w /\
  timers w' = timers w.
Proof.
  destruct w as [rc l sp was cl sl bx ss sy ts fl lg sr sf].
  destruct rc, bx; cbn; auto.
Qed.

Lemma utter_onend_effect (w : widget) :
  let w' := exec utter_onend w in
  isBotSpeaking w' = false /\ wasListeningBeforeSpeak w' = false /\
  timers w' =
    timers w ++
    (if wasListeningBeforeSpeak w
     then [{| t_delay := 200; t_callback := CbStartListening |}] else []).
Proof.
  destruct w as [rc l sp [] cl sl bx ss sy ts fl lg sr sf]; cbn;
    rewrite ?app_nil_r; auto.
Qed.

Lemma step_UttStart (w w' : widget) :
  step UttStart w = Some w' ->
  exists s, w' = exec utter_onstart (set_synth (Some s) w).
Proof.
  cbn [step]. intros Hs. repeat case_match; simplify_eq.
  eexists. reflexivity.
Qed.

Lemma step_UttEnd (w w' : widget) :
  step UttEnd w = Some w' ->
  exists s, w' = exec utter_onend (set_synth (Some s) w).
Proof.
  cbn [step]. intros Hs. repeat case_match; simplify_eq.
  eexists. reflexivity.
Qed.


End Steps.

(** C1, as the code has it.  The start event of an utterance sets
    [isBotSpeaking], takes [isListening] down whatever it was, and keeps
    in [wasListeningBeforeSpeak] what it was; so right after it the two
    flags are not both up.  The one event after which both flags can be
    up when they were not before is the start event of a recognition
    session. *)
Theorem speech_start_suspends_listening `{SC : StringCase} :
  (forall w : widget,
      let w' := exec utter_onstart w in
      isBotSpeaking w' = true /\ isListening w' = false /\
      wasListeningBeforeSpeak w' = isListening w) /\
  (forall w w' : widget, step UttStart w = Some w' -> both w' = false) /\
  (forall (e : event) (w w' : widget),
      step e w = Some w' -> both w' = true ->
      both w = true \/ exists i, e = RecStart i).
Proof.
  repeat split.
  - apply utter_onstart_effect.
  - apply utter_onstart_effect.
  - apply utter_onstart_effect.
  - intros w w' [s ->]%step_UttStart.
    destruct (utter_onstart_effect (set_synth (Some s) w)) as (_ & Hl & _).
    unfold both. now rewrite Hl.
  - intros e w w' Hs Hb.
    destruct e; try (left; eapply step_flags_apart; eauto; discriminate).
    right. eauto.
Qed.

(** ** The chatbot context *)

Section ChatContext.
Import Server.

Lemma streq_true (a b : jsstring) : streq a b = true <-> a = b.
Proof. unfold streq. apply bool_decide_eq_true. Qed.

Lemma streq_false (a b : jsstring) : streq a b = false <-> a <> b.
Proof. unfold streq. apply bool_decide_eq_false. Qed.

Lemma or_else_nonempty (a : option jsstring) (b : jsstring) :
  nonempty b = true -> nonempty (or_else a b) = true.
Proof. intros Hb. destruct a as [[|c s]|]; cbn; auto. Qed.










End ChatContext.



(** ** Toggling the locale, and starting to listen *)

Section Toggle.
Context `{SC : StringCase}.

(** The click on the language badge drops the current recognition object:
    its end and error handlers are taken off, it is asked to stop if it
    runs, and the variable is cleared.  A later end or error event of that
    object runs no handler. *)
Lemma langBadge_onclick_invalidates (w : widget) (i : nat) (s : session) :
  recognition w = Some i -> sessions w !! i = Some s ->
  let w' := exec langBadge_onclick w in
  recognition w' = None /\
  sessions w' !! i =
    Some {| r_lang := r_lang s; r_onend := false; r_onerror := false;
            r_phase := r_phase s;
            r_stopping := running s || r_stopping s |} /\
  (running s = true ->
   step (RecError i) w' = Some w' /\
   exists w'', step (RecEnd i) w' = Some w'' /\
               isListening w'' = isListening w /\
               transcript w'' = transcript w).
Proof.
  intros Hr Hs w'.
  assert (E : exists v,
            w' = set_recognition None
                   (set_sessions
                      (alter (fun s => if running s
                                       then set_phase (r_phase s) true s else s) i
                         (alter (fun s => set_handlers (r_onend s) false s) i
                            (alter (fun s => set_handlers false (r_onerror s) s) i
                               (sessions w)))) v) /\
            isListening v = isListening w /\ transcript v = transcript w).
  { subst w'. destruct w as [rc l sp was cl sl bx ss sy ts fl lg sr sf].
    cbn in Hr. subst rc. unfold langBadge_onclick.
    change (exec (bind (gets getCurrentLang) ?k) ?v)
      with (exec (k (getCurrentLang v)) v).
    cbv beta.
    destruct (streq (getCurrentLang _) (js "kn")), sf, bx; cbn -[alter];
      (eexists; split; [reflexivity | split; reflexivity]). }
  destruct E as (v & -> & Hl & Ht).
  assert (Hi : alter (fun s => if running s
                                then set_phase (r_phase s) true s else s) i
             (alter (fun s => set_handlers (r_onend s) false s) i
                (alter (fun s => set_handlers false (r_onerror s) s) i
                   (sessions w))) !! i =
          Some {| r_lang := r_lang s; r_onend := false; r_onerror := false;
                  r_phase := r_phase s;
                  r_stopping := running s || r_stopping s |}).
  { rewrite !list_lookup_alter_eq, Hs.
    destruct s as [lg e r [] st]; reflexivity. }
  split; [reflexivity|]. split; [exact Hi|].
  intros Hrun. cbn [step sessions set_recognition set_sessions].
  rewrite Hi. destruct s as [lg e r [] st]; try discriminate Hrun.
  all: split; [reflexivity|].
  all: eexists; split; [reflexivity|]; split; [exact Hl | exact Ht].
Qed.


(** [startListening] on the recognition object the widget has: an
    inactive object is started; on one that runs, [start()] throws, the
    fallback calls [stop()] and its [start()] throws again, and all that
    is left is the request to stop. *)
Lemma startListening_reuses (w : widget) (i : nat) (s : session) :
  recognition w = Some i -> sessions w !! i = Some s ->
  r_phase s = Inactive ->
  startListening w =
    (Ok tt, set_sessions (<[i := set_phase Requested false s]> (sessions w)) w).
Proof.
  destruct w as [rc l sp was cl sl bx ss sy ts fl lg sr sf].
  cbn. intros -> Hs Hp.
  unfold startListening, ensureRecognition, recognition_call, session_start,
    on_session, try_catch, bind, gets, modify, throw, ret.
  cbn -[alter lookup insert]. rewrite Hs. unfold running. rewrite Hp.
  cbn -[alter lookup insert].
  assert (Ha : alter (set_phase Requested false) i ss
               = <[i := set_phase Requested false s]> ss).
  { rewrite list_insert_alter. apply list_alter_ext; [|reflexivity].
    intros x Hx. rewrite Hs in Hx. now simplify_eq. }
  rewrite Ha. reflexivity.
Qed.




End Toggle.

(** ** Listening after a playback *)


(** ** A result that comes after the toggle *)

(** C5, where the code departs from it.  The widget listens in "en"; the
    user toggles the locale, which drops the recognition object; the
    result event of that object, arriving afterwards, is handled all the
    same: the transcript gets the user entry, the locale goes back to
    "en", and the request is sent. *)
Theorem stale_result_is_processed :
  let w := after [OpenClick; MicClick; RecStart 0; LangClick] in
  let w' := after [OpenClick; MicClick; RecStart 0; LangClick;
                   RecResult 0 (Some (js "hello"))] in
  (recognition w = None /\ getCurrentLang w = js "kn" /\
   transcript w = [] /\ fetches (log w) = []) /\
  @step asciiLowerCase (RecResult 0 (Some (js "hello"))) w = Some w' /\
  transcript w' = [(User, js "hello")] /\
  getCurrentLang w' = js "en" /\
  fetches (log w') = [(fullPrompt (js "hello") (js "en"), js "en")].
Proof. vm_compute. repeat split; reflexivity. Qed.

(** ** Runs of the model *)

(** C1 fails on the code: the user presses the mic while the reply to
    "hello" is being spoken, the recognition session starts, and the
    widget is listening and speaking at once. *)
Lemma listening_while_speaking :
  exists w : widget,
    @run asciiLowerCase
      [OpenClick; MicClick; RecStart 0; RecResult 0 (Some (js "hello"));
       RecEnd 0; FetchDone 0 (Http true (Json (Some (js "Hi"))));
       UttStart; MicClick; RecStart 0] page = Some w /\
    isListening w = true /\ isBotSpeaking w = true.
Proof. eexists. vm_compute. repeat split; reflexivity. Qed.




(** ** The theorems at work on [page] *)

Lemma selectFemaleVoiceForLang_layers_witness :
  synth page = Some {| voices := []; pending := []; speaking := None |} /\
  synth (exec (@speakOut asciiLowerCase (js "Hi") (js "en")) page) =
    Some {| voices := [];
            pending := [{| u_text := js "Hi"; u_lang := js "en-IN";
                           u_voice := None |}];
            speaking := None |}.
Proof.
  split; [reflexivity|].
  exact (proj2 (@selectFemaleVoiceForLang_layers asciiLowerCase [] (js "en"))
           (js "Hi") page [] None eq_refl).
Defined.

Lemma speech_start_suspends_listening_witness :
  let before :=
    [OpenClick; MicClick; RecStart 0; RecResult 0 (Some (js "hello"));
     FetchDone 0 (Http true (Json (Some (js "Hi"))))] in
  (isListening (after before) = true /\
   @step asciiLowerCase UttStart (after before) =
     Some (after (before ++ [UttStart]))) /\
  both (after (before ++ [UttStart])) = false.
Proof.
  intros before.
  assert (H1 : @step asciiLowerCase UttStart (after before) =
               Some (after (before ++ [UttStart])))
    by (vm_compute; reflexivity).
  split; [split; [vm_compute; reflexivity | exact H1]|].
  exact (proj1 (proj2 (@speech_start_suspends_listening asciiLowerCase))
           _ _ H1).
Defined.

Lemma relay_not_ok_witness :
  box page =
    Some {| messages := []; micOn := false; badge := js "EN";
            shown := false |} /\
  transcript (@relay asciiLowerCase (js "hello") (js "en") false
                [Http false BadBody] page) =
    [(Bot, MSG_CONNECTION_ERROR)] /\
  speaks (log (@relay asciiLowerCase (js "hello") (js "en") false
                 [Http false BadBody] page)) = [].
Proof.
  split; [reflexivity|].
  destruct (@relay_not_ok asciiLowerCase (js "hello") (js "en") false BadBody
              [] page _ eq_refl) as (Ht & _ & Hs & _).
  split; [exact Ht | exact Hs].
Defined.

Lemma relay_retry_policy_witness :
  retry_expected (js "kn") false (Http true (Json (Some (js "Hi")))) = true /\
  transcript (@relay asciiLowerCase Server.namaskara (js "kn") false
                [Http true (Json (Some (js "Hi")));
                 Http true (Json (Some Server.namaskara))] page) =
    [(Bot, Server.namaskara)] /\
  fetches (log (@relay asciiLowerCase Server.namaskara (js "kn") false
                  [Http true (Json (Some (js "Hi")));
                   Http true (Json (Some Server.namaskara))] page)) =
    [(fullPrompt Server.namaskara (js "kn"), js "kn");
     (fullPrompt Server.namaskara (js "kn"), js "kn")].
Proof.
  split; [reflexivity|].
  destruct (@relay_retry_policy asciiLowerCase Server.namaskara (js "kn") false
              (Http true (Json (Some (js "Hi"))))
              [Http true (Json (Some Server.namaskara))] page)
    as (Hf & Hr & _).
  destruct (Hr (Some Server.namaskara) [] eq_refl eq_refl) as (Ht & _ & _).
  split; [exact Ht | exact Hf].
Defined.




(** * More of the widget *)

(** ** Language settings *)

(** X1. [saveLang] never throws, whatever localStorage does.  After it
    has saved a non-empty language, [getCurrentLang] answers that
    language, and localStorage holds it unless writing failed; saving the
    empty string changes nothing. *)
Theorem saveLang_getCurrentLang (lang : jsstring) (w : widget) :
  fst (saveLang lang w) = Ok tt /\
  (nonempty lang = true ->
   getCurrentLang (exec (saveLang lang) w) = lang /\
   storedLang (exec (saveLang lang) w) =
     if storageFails w then storedLang w else Some lang) /\
  (nonempty lang = false -> exec (saveLang lang) w = w).
Proof.
  destruct w as [rc l sp was cl sl bx ss sy ts fl lg sr sf].
  destruct lang as [|c s]; cbn.
  - repeat split; discriminate.
  - destruct sf; cbn; repeat split; discriminate.
Qed.

(** ** Results of recognition *)

(** X3. A result whose transcript is absent, empty or blank changes
    nothing.  Any other result makes the detected language the current
    one, appends the trimmed transcript to the chat as the user's entry,
    and posts exactly one request, for that text in that language, not
    marked as a retry. *)
Theorem rec_onresult_effect (t : option jsstring) (w : widget) :
  let text := trim (or_else t []) in
  let lang := detectLangFromText (Some text) in
  let w' := exec (rec_onresult t) w in
  if nonempty text then
    getCurrentLang w' = lang /\
    (lang = js "kn" \/ lang = js "en") /\
    transcript w' =
      transcript w ++ match box w with Some _ => [(User, text)] | None => [] end /\
    log w' = log w ++ [AFetch (fullPrompt text lang) lang] /\
    inflight w' = inflight w ++ [the_request text lang false]
  else w' = w.
Proof.
  intros text lang w'. subst w' lang. unfold rec_onresult. fold text.
  cbv zeta. destruct text as [|c s]; [reflexivity|].
  cbn [nonempty negb].
  destruct w as [rc l sp was cl sl bx ss sy ts fl lg sr sf].
  unfold detectLangFromText. cbn [nonempty negb].
  destruct (KANNADA_REGEX (c :: s)), sf, bx; cbn;
    rewrite ?app_nil_r; repeat split; auto.
Qed.

(** ** Starting to listen *)

(** X4. In a browser without speech recognition, [startListening] shows
    the alert and does nothing else, and no exception leaves it; a click
    on the mic of a widget that is not listening shows the alert twice,
    once from [toggleListening] and once from [startListening]. *)
Theorem listening_without_recognition (w : widget) :
  hasSR w = false -> recognition w = None ->
  startListening w =
    (Ok tt, set_log (log w ++ [AAlert MSG_NO_RECOGNITION]) w) /\
  (isListening w = false ->
   toggleListening w =
     (Ok tt, set_log (log w ++ [AAlert MSG_NO_RECOGNITION;
                                AAlert MSG_NO_RECOGNITION]) w)).
Proof.
  destruct w as [rc l sp was cl sl bx ss sy ts fl lg sr sf].
  cbn. intros -> ->. split; [reflexivity|]. intros ->. cbn.
  rewrite <- app_assoc. reflexivity.
Qed.

(** X5. [startListening] on a recognition object that is already running
    does not restart it: [start()] throws, the fallback calls [stop()] and
    [start()] throws again, so all that is left is the request to stop.
    No exception leaves the function. *)
Theorem startListening_while_running (w : widget) (i : nat) (s : session) :
  recognition w = Some i -> sessions w !! i = Some s -> running s = true ->
  startListening w =
    (Ok tt,
     set_sessions (<[i := set_phase (r_phase s) true s]> (sessions w)) w).
Proof.
  destruct w as [rc l sp was cl sl bx ss sy ts fl lg sr sf].
  cbn. intros -> Hs Hr.
  unfold startListening, ensureRecognition, recognition_call, session_start,
    session_stop, on_session, try_catch, bind, gets, modify, throw, ret.
  cbn -[alter lookup insert]. rewrite Hs, Hr. cbn -[alter lookup insert].
  assert (Ha : alter (fun s0 => if running s0
                                then set_phase (r_phase s0) true s0 else s0) i ss
               = <[i := set_phase (r_phase s) true s]> ss).
  { rewrite list_insert_alter. apply list_alter_ext; [|reflexivity].
    intros x Hx. rewrite Hs in Hx. simplify_eq. now rewrite Hr. }
  rewrite Ha.
  rewrite list_lookup_insert_eq by (apply lookup_lt_Some in Hs; exact Hs).
  cbn -[alter lookup insert].
  change (running (set_phase (r_phase s) true s)) with (running s).
  rewrite Hr. reflexivity.
Qed.

(** ** The relay when things go wrong *)

Section RelayFailures.
Context `{SC : StringCase}.

Lemma resume_exception (q : request) (r : response) (w : widget) :
  r = Rejected \/ r = Http true BadBody ->
  exec (sendMessageToAPI_resume q r) w =
  exec (addMessage Bot MSG_API_ERROR) (set_log (log w ++ [AConsole]) w).
Proof. intros [-> | ->]; reflexivity. Qed.

End RelayFailures.

(** X9. When the request of the relay fails without a status (the fetch is
    rejected) or the body of a 2xx response cannot be read, the call ends
    with one entry in the transcript, the general error in the bot role,
    and one line on the console: nothing is spoken, nothing is sent again
    whatever arrives later, nothing stays pending, and the listening and
    speaking flags are as they were. *)
Theorem relay_exception `{SC : StringCase} (text lang : jsstring)
    (triedRetry : bool) (r : response) (rs : list response) (w : widget) :
  r = Rejected \/ r = Http true BadBody ->
  let w' := relay text lang triedRetry (r :: rs) w in
  transcript w' =
    transcript w ++ match box w with Some _ => [(Bot, MSG_API_ERROR)] | None => [] end /\
  log w' = log w ++ [AFetch (fullPrompt text lang) lang; AConsole] /\
  inflight w' = inflight w /\
  isListening w' = isListening w /\ isBotSpeaking w' = isBotSpeaking w.
Proof.
  intros Hr w'. subst w'. rewrite relay_outcome.
  assert (E : retries (the_request text lang triedRetry) r = false)
    by (destruct Hr as [-> | ->]; reflexivity).
  rewrite E, (resume_exception _ r _ Hr).
  destruct w as [rc l sp was cl sl [d|] ss sy ts fl lg sr sf]; cbn;
    rewrite <- ?app_assoc, ?app_nil_r; repeat split; reflexivity.
Qed.

(** X10. A 2xx response whose body has no reply, or an empty one, is not
    an error and calls for no retry in any locale: the placeholder goes to
    the transcript and is spoken in the locale of the request. *)
Theorem relay_missing_reply `{SC : StringCase} (text lang : jsstring)
    (triedRetry : bool) (reply : option jsstring) (rs : list response)
    (w : widget) :
  reply = None \/ reply = Some [] ->
  let w' := relay text lang triedRetry (Http true (Json reply) :: rs) w in
  transcript w' =
    transcript w ++ match box w with Some _ => [(Bot, MSG_NO_REPLY)] | None => [] end /\
  log w' = log w ++ [AFetch (fullPrompt text lang) lang;
                     ASpeakOut MSG_NO_REPLY lang] /\
  inflight w' = inflight w.
Proof.
  intros Hr w'. subst w'. rewrite relay_outcome.
  assert (E : retries (the_request text lang triedRetry)
                      (Http true (Json reply)) = false).
  { unfold retries. destruct Hr as [-> | ->]; cbn;
      now rewrite andb_false_r. }
  rewrite E.
  match goal with |- context [exec ?m ?v] =>
    pose proof (resume_accept _ reply v E) as [Hb Hl];
    pose proof (resume_final _ _ v E) as [Hi _] end.
  cbn zeta in Hb, Hl. unfold transcript. rewrite Hb, Hl, Hi.
  assert (Ho : or_else reply MSG_NO_REPLY = MSG_NO_REPLY)
    by (destruct Hr as [-> | ->]; reflexivity).
  rewrite Ho.
  destruct w as [rc l sp was cl sl [d|] ss sy ts fl lg sr sf]; cbn;
    rewrite <- ?app_assoc; repeat split; reflexivity.
Qed.

(** ** Closing and clearing *)

(** X12. The close button stops listening and speech and hides the box,
    without throwing.  It is no reset of the widget: the timers and the
    requests that are pending stay pending, and the resume flag and the
    transcript stay as they are. *)
Theorem closeBtn_onclick_effect (w : widget) :
  let w' := exec closeBtn_onclick w in
  fst (closeBtn_onclick w) = Ok tt /\
  (isListening w' = false /\ isBotSpeaking w' = false /\
   busy <$> synth w' <> Some true /\ displayed w' = false) /\
  (timers w' = timers w /\ inflight w' = inflight w /\
   wasListeningBeforeSpeak w' = wasListeningBeforeSpeak w /\
   transcript w' = transcript w).
Proof.
  destruct w as [rc l sp was cl sl bx ss sy ts fl lg sr sf].
  destruct rc, bx, sy as [[vs [|u q] [u'|]]|]; cbn;
    repeat split; try reflexivity; discriminate.
Qed.

(** X13. Clearing the chat cancels no request: the reply to a request
    that was pending when the user cleared the chat arrives in the empty
    transcript and is its only entry. *)
Theorem reply_after_clear `{SC : StringCase} (w : widget)
    (fl : list request) (q : request) (reply : option jsstring) :
  displayed w = true -> inflight w = fl ++ [q] ->
  retries q (Http true (Json reply)) = false ->
  exists w',
    run [ClearClick; FetchDone (length fl) (Http true (Json reply))] w
      = Some w' /\
    transcript w' = [(Bot, or_else reply MSG_NO_REPLY)] /\
    speaks (log w') =
      speaks (log w) ++ [(or_else reply MSG_NO_REPLY, q_lang q)].
Proof.
  intros Hd Hi Hr. cbn [run].
  assert (Hc : step ClearClick w = Some (exec clearChat w))
    by (cbn [step]; now rewrite Hd).
  rewrite Hc.
  rewrite (step_FetchDone_last _ fl q) by (destruct w; exact Hi).
  eexists. split; [reflexivity|].
  match goal with |- context [exec (sendMessageToAPI_resume q ?r) ?v] =>
    pose proof (resume_accept q reply v Hr) as [Hb Hl] end.
  cbn zeta in Hb, Hl. unfold transcript. rewrite Hb, Hl.
  destruct w as [rc l sp was cl sl [d|] ss sy ts fl' lg sr sf];
    [|discriminate Hd].
  cbn. rewrite speaks_snoc. split; reflexivity.
Qed.

(** ** What holds in every state the widget can reach *)

Section Reachable.
Context `{SC : StringCase}.

Lemma run_invariant (I : widget -> Prop) :
  (forall e w w', I w -> step e w = Some w' -> I w') ->
  forall es w w', I w -> run es w = Some w' -> I w'.
Proof.
  intros Hstep. induction es as [|e es IH]; intros w w' Hw Hr; cbn in Hr.
  - now simplify_eq.
  - destruct (step e w) as [w1|] eqn:Hs; [|discriminate].
    eapply IH; [|exact Hr]. eapply Hstep; eauto.
Qed.

Lemma reachable_invariant (I : widget -> Prop) :
  (forall sr fails vs stored, I (loaded sr fails vs stored)) ->
  (forall e w w', I w -> step e w = Some w' -> I w') ->
  forall w, reachable w -> I w.
Proof.
  intros H0 Hstep w (sr & fails & vs & stored & es & Hr).
  eapply run_invariant; eauto.
Qed.

Lemma loaded_badge_agrees sr fails vs stored :
  badge_agrees (loaded sr fails vs stored).
Proof.
  unfold badge_agrees.
  destruct stored as [[|c s]|], fails; cbn -[streq];
    eexists; (split; [reflexivity|]); split; reflexivity.
Qed.

Lemma step_badge_agrees (e : event) (w w' : widget) :
  badge_agrees w -> step e w = Some w' -> badge_agrees w'.
Proof.
  intros Hw Hs.
  assert (K : keeping (fun w => (currentLang w, badge <$> box w)) w w' ->
              badge_agrees w').
  { cbv [rel keeping]. intros [= E1 E2]. destruct Hw as (l & H1 & H2 & H3).
    exists l. now rewrite E1, E2. }
  destruct e as [| | | | |i|i tr|i|i|k r| | | |k];
    cbn [step] in Hs; repeat case_match; simplify_eq;
    try solve [apply K, respects_exec;
               frame ltac:(cbv [rel keeping]; cbn;
                           try match goal with
                               | |- context [box ?v] => destruct (box v)
                               end; reflexivity)].
  - (* the language badge *)
    clear K. destruct Hw as (l & H1 & H2 & H3).
    assert (Hg : getCurrentLang w = l).
    { unfold getCurrentLang. rewrite H1. cbn. now rewrite H2. }
    unfold langBadge_onclick.
    change (exec (bind (gets getCurrentLang) ?k) ?v)
      with (exec (k (getCurrentLang v)) v).
    cbv beta. rewrite Hg.
    destruct w as [rc li sp was cl sl [d|] ss sy ts fl lg sr sf];
      [|discriminate H3].
    destruct (streq l (js "kn")), sf, rc; cbn -[alter];
      eexists; (split; [reflexivity|]); split; reflexivity.
  - (* a result *)
    clear K. unfold rec_onresult. cbv zeta.
    destruct (trim (or_else tr [])) as [|c t] eqn:Et;
      [exact Hw|].
    destruct Hw as (l & H1 & H2 & H3).
    destruct w as [rc li sp was cl sl [d|] ss sy ts fl lg sr sf];
      [|discriminate H3].
    unfold detectLangFromText. cbn [nonempty negb].
    destruct (KANNADA_REGEX (c :: t)), sf; cbn;
      eexists; (split; [reflexivity|]); split; reflexivity.
Qed.

End Reachable.

(** X2. In a browser that lets the script read localStorage, in every
    state the widget reaches after the page is loaded, the chat box
    exists, the badge reads "KN" when the current language is "kn" and
    "EN" otherwise, and the current language is the non-empty value of
    [window.currentLang]. *)
Theorem badge_shows_current_language `{SC : StringCase} (w : widget) :
  reachable w ->
  exists d, box w = Some d /\
            badge d = (if streq (getCurrentLang w) (js "kn")
                       then js "KN" else js "EN") /\
            currentLang w = Some (getCurrentLang w) /\
            nonempty (getCurrentLang w) = true.
Proof.
  intros Hr.
  assert (H : badge_agrees w).
  { revert w Hr. apply reachable_invariant.
    - apply loaded_badge_agrees.
    - apply step_badge_agrees. }
  destruct H as (l & H1 & H2 & H3).
  assert (Hg : getCurrentLang w = l).
  { unfold getCurrentLang. rewrite H1. cbn. now rewrite H2. }
  rewrite Hg. destruct (box w) as [d|]; [|discriminate H3].
  exists d. cbn in H3. simplify_eq. repeat split; auto.
Qed.

Section SpeechQueue.
Context `{SC : StringCase}.

Lemma resume_synth (q : request) (r : response) (w : widget) :
  let w' := exec (sendMessageToAPI_resume q r) w in
  (synth w' = synth w /\ isBotSpeaking w' = isBotSpeaking w) \/
  (synth_consistent w' /\ isBotSpeaking w' = false).
Proof.
  unfold sendMessageToAPI_resume.
  destruct w as [rc l sp was cl sl bx ss sy ts fl lg sr sf].
  destruct r as [|[] [|reply]]; cbn zeta; try (left; split; reflexivity).
  destruct (_ && _ && _); [left; split; reflexivity|].
  right. destruct sy as [[vs [|u q'] [u'|]]|]; split; reflexivity.
Qed.

Lemma stopSpeaking_consistent (w : widget) :
  synth_consistent (exec stopSpeaking w) /\
  isBotSpeaking (exec stopSpeaking w) = false.
Proof.
  destruct w as [rc l sp was cl sl bx ss sy ts fl lg sr sf].
  destruct sy as [[vs [|u q] [u'|]]|]; split; reflexivity.
Qed.

Lemma closeBtn_onclick_stops (w : widget) :
  synth_consistent (exec closeBtn_onclick w) /\
  isBotSpeaking (exec closeBtn_onclick w) = false.
Proof.
  assert (F : exec closeBtn_onclick w
              = exec (on_box (set_shown false))
                  (exec stopSpeaking (exec stopListening w))).
  { destruct w as [[?|] ? ? ? ? ? [?|] ? [[? [|? ?] [?|]]|] ? ? ? ? ?];
      reflexivity. }
  rewrite F. exact (stopSpeaking_consistent (exec stopListening w)).
Qed.

Lemma loaded_synth_consistent sr fails vs stored :
  synth_consistent (loaded sr fails vs stored) /\
  isBotSpeaking (loaded sr fails vs stored) = false.
Proof.
  unfold synth_consistent.
  destruct stored as [[|c s]|], fails, vs; split; reflexivity.
Qed.

Lemma utter_keeps_synth (w : widget) :
  synth (exec utter_onstart w) = synth w /\
  synth (exec utter_onend w) = synth w.
Proof.
  split.
  - change (keeping synth w (exec utter_onstart w)).
    apply respects_exec. frame ltac:(cbv [rel keeping]; reflexivity).
  - change (keeping synth w (exec utter_onend w)).
    apply respects_exec. frame ltac:(cbv [rel keeping]; reflexivity).
Qed.

(** The events that touch neither the engine nor the flag keep whatever
    holds of the two; the others are the close button, a response, and
    the events of an utterance. *)
Lemma step_synth_cases (e : event) (w w' : widget) :
  step e w = Some w' ->
  (synth w' = synth w /\ isBotSpeaking w' = isBotSpeaking w) \/
  e = CloseClick \/ (exists k r, e = FetchDone k r) \/
  utterance_event e = true.
Proof.
  intros Hs.
  assert (K : keeping (fun w => (synth w, isBotSpeaking w)) w w' ->
              synth w' = synth w /\ isBotSpeaking w' = isBotSpeaking w).
  { cbv [rel keeping]. intros [= E1 E2]. now split. }
  destruct e as [| | | | |i|i tr|i|i|k r| | | |k];
    try (right; right; right; reflexivity);
    try (right; left; reflexivity);
    try (right; right; left; eauto; fail);
    left; cbn [step] in Hs; repeat case_match; simplify_eq;
    apply K, respects_exec; frame ltac:(cbv [rel keeping]; reflexivity).
Qed.

Lemma step_FetchDone_synth (k : nat) (r : response) (w w' : widget) :
  step (FetchDone k r) w = Some w' ->
  (synth w' = synth w /\ isBotSpeaking w' = isBotSpeaking w) \/
  (synth_consistent w' /\ isBotSpeaking w' = false).
Proof.
  intros Hs. cbn [step] in Hs.
  destruct (inflight w !! k) as [q|]; [|discriminate]. simplify_eq.
  exact (resume_synth q r (set_inflight (delete k (inflight w)) w)).
Qed.

Lemma step_UttError (w w' : widget) :
  step UttError w = Some w' ->
  isBotSpeaking w' = isBotSpeaking w /\
  exists s, synth w = Some s /\
    ((exists u, speaking s = Some u /\
        synth w' = Some {| voices := voices s; pending := pending s;
                           speaking := None |}) \/
     (exists u rest, speaking s = None /\ pending s = u :: rest /\
        synth w' = Some {| voices := voices s; pending := rest;
                           speaking := None |})).
Proof.
  intros Hs. cbn [step] in Hs.
  destruct (synth w) as [s|] eqn:Es; [|discriminate].
  destruct (speaking s) as [u|] eqn:Eu.
  - simplify_eq. split; [reflexivity|]. exists s. split; [reflexivity|].
    left. exists u. split; [exact Eu | reflexivity].
  - destruct (pending s) as [|u rest] eqn:Ep; [discriminate|]. simplify_eq.
    split; [reflexivity|]. exists s. split; [reflexivity|].
    right. exists u, rest. split; [exact Eu|]. split; [exact Ep | reflexivity].
Qed.

Lemma step_synth_consistent (e : event) (w w' : widget) :
  synth_consistent w -> step e w = Some w' -> synth_consistent w'.
Proof.
  intros Hw Hs.
  destruct (step_synth_cases e w w' Hs)
    as [[E1 E2]|[->|[(k & r & ->)|He]]].
  - unfold synth_consistent. now rewrite E1, E2.
  - cbn [step] in Hs. destruct (displayed w); [|discriminate]. simplify_eq.
    apply closeBtn_onclick_stops.
  - destruct (step_FetchDone_synth k r w w' Hs) as [[E1 E2]|[E _]];
      [|exact E].
    unfold synth_consistent. now rewrite E1, E2.
  - destruct e; try discriminate He; clear He.
    + (* the start of an utterance *)
      cbn [step] in Hs. unfold synth_consistent in Hw.
      destruct (synth w) as [s|]; [|discriminate].
      destruct (speaking s); [discriminate|].
      destruct (pending s) as [|u [|u' rest]]; [discriminate| |contradiction].
      assert (E : w' = exec utter_onstart
                          (set_synth (Some {| voices := voices s;
                                              pending := [];
                                              speaking := Some u |}) w))
        by (injection Hs as <-; reflexivity).
      subst w'.
      unfold synth_consistent. rewrite (proj1 (utter_keeps_synth _)).
      cbn [synth set_synth speaking pending]. apply utter_onstart_effect.
    + (* its end *)
      cbn [step] in Hs. unfold synth_consistent in Hw.
      destruct (synth w) as [s|]; [|discriminate].
      destruct (speaking s) as [u|]; [|discriminate].
      assert (E : w' = exec utter_onend
                          (set_synth (Some {| voices := voices s;
                                              pending := pending s;
                                              speaking := None |}) w))
        by (injection Hs as <-; reflexivity).
      subst w'. clear Hs.
      destruct (pending s) as [|u' rest]; [|contradiction].
      unfold synth_consistent. rewrite (proj2 (utter_keeps_synth _)).
      cbn [synth set_synth speaking pending]. exact I.
    + (* its error *)
      destruct (step_UttError w w' Hs)
        as (Ef & s & Es & [(u & Eu & E')|(u & rest & Eu & Ep & E')]);
        unfold synth_consistent in *; rewrite Es, Eu in Hw; rewrite E';
        cbn [speaking pending].
      * destruct (pending s) as [|? ?]; [exact I | contradiction].
      * rewrite Ep in Hw. destruct rest; [exact I | contradiction].
Qed.

Lemma reachable_synth_consistent (w : widget) :
  reachable w -> synth_consistent w.
Proof.
  revert w. apply reachable_invariant.
  - apply loaded_synth_consistent.
  - apply step_synth_consistent.
Qed.

Lemma step_flag_backed (e : event) (w w' : widget) :
  e <> UttError -> flag_backed w -> step e w = Some w' -> flag_backed w'.
Proof.
  intros Hne Hw Hs.
  assert (Off : isBotSpeaking w' = false -> flag_backed w').
  { intros E Hf. rewrite E in Hf. discriminate Hf. }
  destruct (step_synth_cases e w w' Hs)
    as [[E1 E2]|[->|[(k & r & ->)|He]]].
  - unfold flag_backed. now rewrite E1, E2.
  - cbn [step] in Hs. destruct (displayed w); [|discriminate]. simplify_eq.
    apply Off, closeBtn_onclick_stops.
  - destruct (step_FetchDone_synth k r w w' Hs) as [[E1 E2]|[_ E]];
      [|exact (Off E)].
    unfold flag_backed. now rewrite E1, E2.
  - destruct e; try discriminate He; clear He; [| |contradiction].
    + cbn [step] in Hs.
      destruct (synth w) as [s|]; [|discriminate].
      destruct (speaking s); [discriminate|].
      destruct (pending s) as [|u rest]; [discriminate|].
      assert (E : w' = exec utter_onstart
                          (set_synth (Some {| voices := voices s;
                                              pending := rest;
                                              speaking := Some u |}) w))
        by (injection Hs as <-; reflexivity).
      subst w'. intros _.
      rewrite (proj1 (utter_keeps_synth _)). eexists _, u.
      split; reflexivity.
    + apply step_UttEnd in Hs as [s3 ->].
      apply Off, utter_onend_effect.
Qed.

Lemma run_flag_backed (es : list event) (w w' : widget) :
  ~ In UttError es -> flag_backed w -> run es w = Some w' -> flag_backed w'.
Proof.
  revert w. induction es as [|e es IH]; intros w Hin Hw Hr; cbn in Hr.
  - now simplify_eq.
  - destruct (step e w) as [w1|] eqn:Hs; [|discriminate].
    apply (IH w1); [intros Hi; apply Hin; now right| |exact Hr].
    eapply step_flag_backed; [|exact Hw|exact Hs].
    intros ->. apply Hin. now left.
Qed.

End SpeechQueue.

(** X7. In every reachable state the synthesis engine holds at most one
    utterance of the widget, queued or being spoken: [speakOut] cancels
    what is there before it queues. *)
Theorem at_most_one_utterance `{SC : StringCase} (w : widget)
    (s : synthesis) :
  reachable w -> synth w = Some s ->
  (length (pending s) +
   match speaking s with Some _ => 1 | None => 0 end <= 1)%nat.
Proof.
  intros Hr Hs. apply reachable_synth_consistent in Hr.
  unfold synth_consistent in Hr. rewrite Hs in Hr.
  destruct (speaking s), (pending s) as [|? [|? ?]]; cbn; try lia;
    contradiction.
Qed.

(** X8. In every state the widget reaches, [isBotSpeaking] is true while
    the synthesis engine speaks an utterance of the widget.  As long as no
    utterance has ended in an error the converse holds as well, and the
    flag is true exactly when an utterance is being spoken.  An error
    event breaks the converse: it ends the utterance and leaves the flag
    as it was, since no handler is attached for it. *)
Theorem speaking_flag_exact `{SC : StringCase} (sr fails : bool)
    (vs : option (list voice)) (stored : option jsstring)
    (es : list event) (w : widget) :
  run es (loaded sr fails vs stored) = Some w ->
  ((exists s u, synth w = Some s /\ speaking s = Some u) ->
   isBotSpeaking w = true) /\
  (~ In UttError es ->
   (isBotSpeaking w = true <->
    exists s u, synth w = Some s /\ speaking s = Some u)) /\
  (forall w', step UttError w = Some w' ->
              isBotSpeaking w' = isBotSpeaking w /\
              forall s', synth w' = Some s' -> speaking s' = None).
Proof.
  intros Hr.
  assert (Hc : synth_consistent w).
  { apply reachable_synth_consistent. now exists sr, fails, vs, stored, es. }
  assert (H1 : (exists s u, synth w = Some s /\ speaking s = Some u) ->
               isBotSpeaking w = true).
  { intros (s & u & Es & Eu). unfold synth_consistent in Hc.
    rewrite Es, Eu in Hc. destruct (pending s); [exact Hc | contradiction]. }
  split; [exact H1|]. split.
  - intros Hin. split; [|exact H1].
    eapply run_flag_backed; [exact Hin| |exact Hr].
    intros Hf. rewrite (proj2 (loaded_synth_consistent sr fails vs stored)) in Hf.
    discriminate Hf.
  - intros w' Hs.
    destruct (step_UttError w w' Hs)
      as (Ef & s & Es & [(u & Eu & E')|(u & rest & Eu & Ep & E')]);
      (split; [exact Ef|]); intros s' Es'; rewrite E' in Es';
      simplify_eq; reflexivity.
Qed.

Section Requests.
Context `{SC : StringCase}.

Lemma loaded_requests_well_formed sr fails vs stored :
  requests_well_formed (loaded sr fails vs stored).
Proof.
  unfold requests_well_formed.
  destruct stored as [[|c s]|], fails; cbn; split; constructor.
Qed.

Lemma detect_kn_or_en (t : option jsstring) :
  detectLangFromText t = js "kn" \/ detectLangFromText t = js "en".
Proof.
  unfold detectLangFromText. destruct t as [s|]; [|now right].
  destruct (negb (nonempty s)); [now right|].
  destruct (KANNADA_REGEX s); [now left | now right].
Qed.

Lemma rec_onresult_request (tr : option jsstring) (c : Z) (t : jsstring)
    (w : widget) :
  trim (or_else tr []) = c :: t ->
  let lang := detectLangFromText (Some (c :: t)) in
  inflight (exec (rec_onresult tr) w) =
    inflight w ++ [the_request (c :: t) lang false] /\
  log (exec (rec_onresult tr) w) =
    log w ++ [AFetch (fullPrompt (c :: t) lang) lang].
Proof.
  intros Et lang. subst lang. unfold rec_onresult. cbv zeta. rewrite Et.
  cbn [nonempty negb]. unfold detectLangFromText. cbn [nonempty negb].
  destruct w as [rc li sp was cl sl bx ss sy ts fl lg sr sf].
  destruct (KANNADA_REGEX (c :: t)), sf; split; reflexivity.
Qed.

Lemma step_requests_well_formed (e : event) (w w' : widget) :
  requests_well_formed w -> step e w = Some w' -> requests_well_formed w'.
Proof.
  intros Hw Hs.
  assert (K : keeping (fun w => (inflight w, fetches (log w))) w w' ->
              requests_well_formed w').
  { cbv [rel keeping]. intros [= E1 E2]. unfold requests_well_formed.
    now rewrite E1, E2. }
  destruct e as [| | | | |i|i tr|i|i|k r| | | |k];
    cbn [step] in Hs; repeat case_match; simplify_eq;
    try solve [apply K, respects_exec;
               frame ltac:(cbv [rel keeping]; cbn;
                           rewrite ?fetches_snoc; cbn;
                           rewrite ?app_nil_r; reflexivity)].
  - (* a result *)
    clear K.
    destruct (trim (or_else tr [])) as [|c t] eqn:Et.
    { unfold rec_onresult. cbv zeta. rewrite Et. exact Hw. }
    destruct Hw as [H1 H2].
    assert (Hwf : well_formed (c :: t) (detectLangFromText (Some (c :: t))))
      by (split; [reflexivity | apply detect_kn_or_en]).
    destruct (rec_onresult_request tr c t w Et) as [E1 E2].
    unfold requests_well_formed. rewrite E1, E2. split.
    + apply Forall_app; split; [exact H1 | apply Forall_singleton, Hwf].
    + rewrite fetches_snoc. apply Forall_app; split; [exact H2|].
      apply Forall_singleton. eexists; split; [exact Hwf | reflexivity].
  - (* a response *)
    clear K. destruct Hw as [H1 H2].
    match goal with H : inflight w !! k = Some ?q0 |- _ =>
      rename q0 into q; pose proof (Forall_lookup_1 _ _ _ _ H1 H) as Hq end.
    change (requests_well_formed
              (exec (sendMessageToAPI_resume q r)
                    (set_inflight (delete k (inflight w)) w))).
    set (v := set_inflight (delete k (inflight w)) w).
    assert (Hv1 : Forall (fun q => well_formed (q_text q) (q_lang q)) (inflight v))
      by (apply Forall_delete; exact H1).
    assert (Hv2 : fetches (log v) = fetches (log w)) by reflexivity.
    destruct (retries q r) eqn:E.
    + rewrite (resume_retry q r v E). unfold requests_well_formed.
      cbn [inflight log set_inflight set_log]. split.
      * apply Forall_app; split; [exact Hv1 | apply Forall_singleton, Hq].
      * rewrite fetches_snoc, Hv2. apply Forall_app; split; [exact H2|].
        apply Forall_singleton. eexists; split; [exact Hq | reflexivity].
    + destruct (resume_final q r v E) as [E1 E2].
      unfold requests_well_formed. rewrite E1, E2, Hv2. split; assumption.
Qed.

Lemma reachable_requests_well_formed (w : widget) :
  reachable w -> requests_well_formed w.
Proof.
  revert w. apply reachable_invariant.
  - apply loaded_requests_well_formed.
  - apply step_requests_well_formed.
Qed.

End Requests.

(** X11. Every request the widget ever sends, first attempts and retries
    alike, carries a prompt built from a non-empty text and names one of
    the two locales, "kn" or "en"; so the server never answers it with
    400 "Invalid request". *)
Theorem widget_requests_are_valid `{SC : StringCase} (w : widget)
    (message language : jsstring) :
  reachable w -> In (message, language) (fetches (log w)) ->
  (language = js "kn" \/ language = js "en") /\
  (exists text, nonempty text = true /\ message = fullPrompt text language) /\
  (forall apiKey answer,
      Server.status
        (fst (Server.chat apiKey
                {| Server.message := Some message;
                   Server.language := Some language |} answer)) <> 400).
Proof.
  intros Hr Hin. apply reachable_requests_well_formed in Hr as [_ H2].
  rewrite Forall_forall in H2. apply list_elem_of_In in Hin.
  destruct (H2 _ Hin) as (text & [Ht Hl] & Hm). cbn in Hl, Hm.
  split; [exact Hl|]. split; [now exists text|].
  intros apiKey answer. unfold Server.chat. cbn [Server.message Server.language].
  assert (Hne : nonempty message = true).
  { rewrite Hm. unfold fullPrompt. destruct Hl as [-> | ->]; reflexivity. }
  assert (Hnl : nonempty language = true) by (destruct Hl as [-> | ->]; reflexivity).
  rewrite Hne, Hnl. cbn [negb orb].
  destruct apiKey, answer; cbn; discriminate.
Qed.

(** ** The widget with its server *)

Lemma trimmed_nonempty (c : Server.completion) (r : jsstring) :
  Server.trimmed c = Some r -> nonempty r = true.
Proof.
  unfold Server.trimmed. destruct c as [|[out|]]; try discriminate.
  destruct (nonempty (trim out)) eqn:E; [|discriminate].
  now intros [= <-].
Qed.

Lemma chat_relayed `{SC : StringCase} (text lang : jsstring)
    (triedRetry apiKey : bool) (answer : Server.completion)
    (rs : list response) (w : widget) :
  lang = js "en" \/ (triedRetry = true /\ nonempty lang = true) ->
  let r := fst (Server.chat apiKey
                  {| Server.message := Some (fullPrompt text lang);
                     Server.language := Some lang |} answer) in
  let w' := relay text lang triedRetry (delivered (Server.Handled r) :: rs) w in
  (Server.status r = 200 <-> apiKey = true /\ answer <> Server.Failed) /\
  nonempty (Server.reply r) = true /\
  transcript w' =
    transcript w ++
    match box w with
    | Some _ => [(Bot, if Server.status r =? 200 then Server.reply r
                        else MSG_CONNECTION_ERROR)]
    | None => []
    end /\
  speaks (log w') =
    speaks (log w) ++
    (if Server.status r =? 200 then [(Server.reply r, lang)] else []).
Proof.
  intros Hl r w'.
  assert (Hnl : nonempty lang = true) by (destruct Hl as [-> | [_ H]]; auto).
  assert (Hnm : nonempty (fullPrompt text lang) = true).
  { unfold fullPrompt. destruct (streq lang (js "kn")); reflexivity. }
  assert (Hr : r = fst (Server.chat apiKey
                  {| Server.message := Some (fullPrompt text lang);
                     Server.language := Some lang |} answer)) by reflexivity.
  unfold Server.chat in Hr. cbn [Server.message Server.language] in Hr.
  rewrite Hnm, Hnl in Hr. cbn [negb orb] in Hr.
  assert (Hcases :
    (Server.status r <> 200 /\ (Server.status r =? 200) = false /\
     (apiKey = false \/ answer = Server.Failed) /\
     nonempty (Server.reply r) = true /\
     exists b, delivered (Server.Handled r) = Http false b) \/
    (Server.status r = 200 /\ apiKey = true /\ answer <> Server.Failed /\
     nonempty (Server.reply r) = true /\
     delivered (Server.Handled r) =
       Http true (Json (Some (Server.reply r))))).
  { clearbody r. destruct apiKey; cbn -[Server.trimmed] in Hr.
    - destruct answer as [|c]; cbn -[Server.trimmed] in Hr; subst r.
      + left. repeat split; try discriminate; auto. eexists; reflexivity.
      + right. repeat split; try discriminate; auto.
        cbn -[Server.trimmed].
        destruct (Server.trimmed (Server.Content c)) eqn:E;
          [eapply trimmed_nonempty; eauto | reflexivity].
    - subst r. left. repeat split; try discriminate; auto.
      eexists; reflexivity. }
  subst w'. clearbody r.
  destruct Hcases as [(Hs & Hsb & Hwhy & Hne & b & Hd)|(Hs & Hk & Ha & Hne & Hd)].
  - split; [split; [contradiction | intros [-> Ha]; destruct Hwhy; congruence]|].
    split; [exact Hne|]. rewrite Hd, Hsb, relay_outcome. cbn [retries].
    rewrite resume_not_ok.
    destruct w as [rc l sp was cl sl [d|] ss sy ts fl lg sr sf]; cbn;
      rewrite !speaks_snoc, !app_nil_r; split; reflexivity.
  - split; [split; auto|]. split; [exact Hne|].
    rewrite Hd, relay_outcome.
    assert (E : retries (the_request text lang triedRetry)
                  (Http true (Json (Some (Server.reply r)))) = false).
    { unfold retries. cbn [q_lang q_triedRetry the_request].
      destruct Hl as [-> | [-> _]]; [reflexivity|].
      cbn. now rewrite andb_false_r. }
    rewrite E, Hs. cbn [Z.eqb Pos.eqb].
    match goal with |- context [exec ?m ?v] =>
      pose proof (resume_accept _ (Some (Server.reply r)) v E) as [Hb Hlg] end.
    cbn zeta in Hb, Hlg. unfold transcript. rewrite Hb, Hlg.
    assert (Ho : or_else (Some (Server.reply r)) MSG_NO_REPLY = Server.reply r).
    { cbn. now rewrite Hne. }
    rewrite Ho.
    destruct w as [rc l sp was cl sl [d|] ss sy ts fl lg sr sf]; cbn;
      rewrite !speaks_snoc, !app_nil_r; split; reflexivity.
Qed.

(** X14. A call of the relay served by POST /api/chat, body parser and
    handler, when no retry is due (the locale is "en", or the call is the
    retry).  The server answers 200 exactly when the body of the request
    is within the limit of the parser, the server has its key and the
    model call does not fail; the reply of the handler is never empty.  A
    200 puts the reply, the model's trimmed answer or the server's
    placeholder, in the transcript and has it spoken; any other answer,
    the 413 of the parser included, shows the connection error and
    nothing is spoken. *)
Theorem chat_end_to_end `{SC : StringCase} (text lang : jsstring)
    (triedRetry apiKey large : bool) (answer : Server.completion)
    (rs : list response) (w : widget) :
  lang = js "en" \/ (triedRetry = true /\ nonempty lang = true) ->
  let p := if large then Server.Refused 413
           else Server.Body {| Server.message := Some (fullPrompt text lang);
                               Server.language := Some lang |} in
  let r := fst (Server.post_chat apiKey p answer) in
  let w' := relay text lang triedRetry (delivered r :: rs) w in
  (Server.code r = 200 <->
   large = false /\ apiKey = true /\ answer <> Server.Failed) /\
  (forall r0, r = Server.Handled r0 -> nonempty (Server.reply r0) = true) /\
  transcript w' =
    transcript w ++
    match box w with
    | Some _ =>
        [(Bot, match r with
               | Server.Handled r0 =>
                   if Server.status r0 =? 200 then Server.reply r0
                   else MSG_CONNECTION_ERROR
               | Server.ErrorPage _ => MSG_CONNECTION_ERROR
               end)]
    | None => []
    end /\
  speaks (log w') =
    speaks (log w) ++
    match r with
    | Server.Handled r0 =>
        if Server.status r0 =? 200 then [(Server.reply r0, lang)] else []
    | Server.ErrorPage _ => []
    end.
Proof.
  intros Hl p r w'. destruct large; subst p r w'.
  - cbn [Server.post_chat fst Server.code delivered].
    split; [split; [discriminate | intros [? _]; discriminate]|].
    split; [intros r0; discriminate|].
    change (Http ((200 <=? 413) && (413 <=? 299)) BadBody)
      with (Http false BadBody).
    rewrite relay_outcome. cbn [retries]. rewrite resume_not_ok.
    destruct w as [rc l sp was cl sl [d|] ss sy ts fl lg sr sf]; cbn;
      rewrite !speaks_snoc, !app_nil_r; split; reflexivity.
  - cbn [Server.post_chat fst Server.code].
    destruct (chat_relayed text lang triedRetry apiKey answer rs w Hl)
      as (H1 & H2 & H3 & H4).
    split; [rewrite H1; tauto|].
    split; [intros r0 [= <-]; exact H2|].
    split; [exact H3 | exact H4].
Qed.

(** ** The locale toggle and the listening flag *)

Section Stuck.
Context `{SC : StringCase}.

Lemma langBadge_onclick_shape (w : widget) (i : nat) :
  recognition w = Some i ->
  exists v ss',
    exec langBadge_onclick w = set_recognition None (set_sessions ss' v) /\
    length ss' = length (sessions w) /\
    isListening v = isListening w /\ hasSR v = hasSR w.
Proof.
  intros Hr. unfold langBadge_onclick.
  change (exec (bind (gets getCurrentLang) ?k) ?v)
    with (exec (k (getCurrentLang v)) v).
  cbv beta.
  destruct w as [rc l sp was cl sl bx ss sy ts fl lg sr sf].
  cbn in Hr. subst rc.
  destruct (streq (getCurrentLang _) (js "kn")), sf, bx; cbn -[alter];
    (eexists _, _; split; [reflexivity|]; split;
     [rewrite !length_alter; reflexivity | split; reflexivity]).
Qed.

Lemma toggleListening_detached (v : widget) (ss : list session) :
  isListening v = true -> hasSR v = true ->
  let w3 := exec toggleListening (set_recognition None (set_sessions ss v)) in
  isListening w3 = false /\ recognition w3 = Some (length ss) /\
  exists s', sessions w3 !! length ss = Some s' /\ r_phase s' = Inactive.
Proof.
  destruct v as [rc l sp was cl sl bx ss0 sy ts fl lg sr sf].
  cbn. intros -> ->.
  unfold toggleListening, ensureRecognition, initRecognition, stopListening,
    session_stop, on_session, mic_off, on_box, exec, bind, gets, modify,
    try_catch, ret.
  cbn -[alter lookup streq].
  split; [reflexivity|]. split; [reflexivity|].
  rewrite alter_app_r_alt, Nat.sub_diag by lia. cbn -[lookup streq].
  rewrite list_lookup_middle by reflexivity.
  eexists. split; reflexivity.
Qed.

End Stuck.

(** X6. Toggling the locale while the widget listens leaves the listening
    flag up with no recognition object behind it: the toggle does not
    touch the flag, and the end event of the dropped object, the one
    thing that would take it down, no longer has a handler.  The next
    click on the mic therefore takes the branch that stops: it makes the
    new recognition object, resets the flag, and does not start
    listening. *)
Theorem locale_toggle_while_listening `{SC : StringCase} (w : widget)
    (i : nat) (s : session) :
  recognition w = Some i -> sessions w !! i = Some s -> running s = true ->
  isListening w = true -> hasSR w = true ->
  let w1 := exec langBadge_onclick w in
  (isListening w1 = true /\ recognition w1 = None) /\
  (exists w2, step (RecEnd i) w1 = Some w2 /\ isListening w2 = true) /\
  (isListening (exec toggleListening w1) = false /\
   recognition (exec toggleListening w1) = Some (length (sessions w)) /\
   exists s', sessions (exec toggleListening w1) !! length (sessions w)
                = Some s' /\
              r_phase s' = Inactive).
Proof.
  intros Hr Hs Hrun Hl Hsr w1.
  destruct (langBadge_onclick_shape w i Hr) as (v & ss' & E & Hlen & Hv & Hh).
  destruct (langBadge_onclick_invalidates w i s Hr Hs) as (_ & _ & Hlate).
  destruct (Hlate Hrun) as (_ & w2 & H2 & H2l & _).
  subst w1. split.
  { rewrite E. cbn. split; [congruence | reflexivity]. }
  split.
  { exists w2. split; [exact H2 | congruence]. }
  rewrite E, <- Hlen. apply toggleListening_detached; congruence.
Qed.

(** ** The language of the recognition object *)

Section Recognizer.
Context `{SC : StringCase}.

Lemma rec_onresult_keeps_recognition (t : option jsstring) (w : widget) :
  recognition (exec (rec_onresult t) w) = recognition w /\
  sessions (exec (rec_onresult t) w) = sessions w.
Proof.
  assert (H : keeping (fun w => (recognition w, sessions w)) w
                (exec (rec_onresult t) w)).
  { apply respects_exec. frame ltac:(cbv [rel keeping]; reflexivity). }
  cbv [rel keeping] in H. now simplify_eq.
Qed.

(** The variable [recognition], once it holds an object, holds that
    object afterwards, and the locale of the object is the same. *)
Definition recognizer_kept (w w' : widget) : Prop :=
  forall i, recognition w = Some i ->
            recognition w' = Some i /\
            r_lang <$> sessions w' !! i = r_lang <$> sessions w !! i.

Lemma recognizer_kept_refl (w : widget) : recognizer_kept w w.
Proof. intros i Hi. now split. Qed.

Lemma recognizer_kept_trans (a b c : widget) :
  recognizer_kept a b -> recognizer_kept b c -> recognizer_kept a c.
Proof.
  intros Hab Hbc i Hi. destruct (Hab i Hi) as [Hb Eb].
  destruct (Hbc i Hb) as [Hc Ec]. split; [exact Hc|]. now rewrite Ec.
Qed.

Definition same_recognizer : frame :=
  {| rel := recognizer_kept;
     rel_refl := recognizer_kept_refl;
     rel_trans := recognizer_kept_trans |}.

Lemma lang_alter (f : session -> session) (j i : nat) (ss : list session) :
  (forall s, r_lang (f s) = r_lang s) ->
  r_lang <$> alter f j ss !! i = r_lang <$> ss !! i.
Proof.
  intros Hf. destruct (decide (j = i)) as [->|Hne].
  - rewrite list_lookup_alter_eq. destruct (ss !! i); cbn; [|reflexivity].
    now rewrite Hf.
  - now rewrite list_lookup_alter_ne.
Qed.

Ltac same_recognizer_leaf :=
  let Hi := fresh "Hi" in
  cbv [rel same_recognizer recognizer_kept]; intros ? Hi;
  split; [exact Hi|];
  first [ reflexivity
        | cbn [sessions set_sessions]; apply lang_alter; intros ?;
          repeat case_match; reflexivity ].

Lemma ensureRecognition_keeps : respects same_recognizer ensureRecognition.
Proof.
  intros w. unfold ensureRecognition, bind, gets.
  destruct (recognition w) as [i|] eqn:E; [apply recognizer_kept_refl|].
  intros i Hi. cbn in Hi. congruence.
Qed.

Lemma startListening_keeps : respects same_recognizer startListening.
Proof.
  unfold startListening.
  apply respects_bind; [apply ensureRecognition_keeps|intros _].
  frame same_recognizer_leaf.
Qed.

Lemma toggleListening_keeps : respects same_recognizer toggleListening.
Proof.
  unfold toggleListening.
  apply respects_bind; [apply ensureRecognition_keeps|intros _].
  apply respects_bind; [apply respects_gets|intros l].
  destruct l; [frame same_recognizer_leaf | apply startListening_keeps].
Qed.

Lemma step_keeps_recognizer (e : event) (w w' : widget) :
  e <> LangClick -> step e w = Some w' -> recognizer_kept w w'.
Proof.
  intros Hne Hs. change (same_recognizer w w').
  destruct e as [| | | | |i|i tr|i|i|k r| | | |k]; try contradiction;
    cbn [step] in Hs; repeat case_match; simplify_eq; apply respects_exec.
  all: try solve [frame same_recognizer_leaf].
  - apply toggleListening_keeps.
  - apply respects_bind; [frame same_recognizer_leaf|intros _].
    match goal with |- context [t_callback ?t] => destruct (t_callback t) end.
    apply startListening_keeps.
Qed.

End Recognizer.

(** X25. The language detected from a result becomes the current language
    but does not reach the recognition object: the handler of the result
    leaves the object and its locale as they are, and the next
    [startListening] starts that same object again, with the locale it
    was created with.  Once the widget has a recognition object, no event
    other than the click on the language badge replaces it or changes its
    locale. *)
Theorem detected_language_keeps_recognizer `{SC : StringCase} (w : widget)
    (i : nat) (s : session) (t : option jsstring) :
  recognition w = Some i -> sessions w !! i = Some s ->
  r_phase s = Inactive ->
  let w1 := exec (rec_onresult t) w in
  let w2 := exec startListening w1 in
  (nonempty (trim (or_else t [])) = true ->
   getCurrentLang w1 = detectLangFromText (Some (trim (or_else t [])))) /\
  recognition w2 = Some i /\
  sessions w2 = <[i := set_phase Requested false s]> (sessions w) /\
  (exists s', sessions w2 !! i = Some s' /\ r_lang s' = r_lang s) /\
  (forall (e : event) (v v' : widget) (j : nat),
      e <> LangClick -> step e v = Some v' -> recognition v = Some j ->
      recognition v' = Some j /\
      r_lang <$> sessions v' !! j = r_lang <$> sessions v !! j).
Proof.
  intros Hr Hs Hp w1 w2.
  destruct (rec_onresult_keeps_recognition t w) as [E1 E2].
  assert (Hs1 : sessions w1 !! i = Some s) by (subst w1; now rewrite E2).
  assert (Hr1 : recognition w1 = Some i) by (subst w1; now rewrite E1).
  assert (E : w2 = set_sessions (<[i := set_phase Requested false s]> (sessions w1)) w1).
  { subst w2. unfold exec. now rewrite (startListening_reuses w1 i s Hr1 Hs1 Hp). }
  split.
  { intros Hne. subst w1. unfold rec_onresult. cbv zeta.
    destruct (trim (or_else t [])) as [|c u]; [discriminate|].
    cbn [nonempty negb]. unfold detectLangFromText. cbn [nonempty negb].
    destruct w as [rc l sp was cl sl bx ss sy ts fl lg sr sf].
    destruct (KANNADA_REGEX (c :: u)), sf; reflexivity. }
  rewrite E. cbn [recognition sessions set_sessions]. split; [exact Hr1|].
  subst w1. rewrite E2. split; [reflexivity|]. split.
  - exists (set_phase Requested false s). split; [|reflexivity].
    apply list_lookup_insert_eq. now apply lookup_lt_Some in Hs.
  - intros e v v' j Hne Hstep Hj.
    exact (step_keeps_recognizer e v v' Hne Hstep j Hj).
Qed.

(** * More of the chatbot context *)

Section MoreContext.
Import Server.

Lemma push_user_same_language (userMessage language : jsstring)
    (ctx : list entry) :
  Forall (fun e => lang e = language) ctx ->
  push_user userMessage language ctx =
  ctx ++ [{| e_role := user; content := userMessage; lang := language |}].
Proof.
  intros Hctx. unfold push_user. destruct ctx as [|e0 rest]; [reflexivity|].
  assert (E : lang e0 = language) by now inversion Hctx.
  rewrite E. unfold streq. rewrite bool_decide_eq_true_2 by reflexivity.
  now rewrite andb_false_r.
Qed.

Lemma translateToEnglish_nonempty (t : jsstring) (c : completion) :
  nonempty t = true -> nonempty (translateToEnglish t c) = true.
Proof.
  intros Ht. unfold translateToEnglish, trimmed.
  destruct c as [|[out|]]; auto.
  destruct (nonempty (trim out)) eqn:E; auto.
Qed.

(** What a valid request whose model call fails, or answers nothing, does
    to the context. *)
Lemma cbChat_failed (x : exchange) (ctx : list entry) :
  nonempty (or_else (message (x_body x)) []) = true ->
  trimmed (x_answer x) = None ->
  exists userMessage,
    nonempty userMessage = true /\
    cbChat true x ctx =
    ({| status := 500;
        reply := match x_answer x with
                 | Failed => js "Failed to connect to chatbot model."
                 | Content _ => warn ++ js "No response from model."
                 end |},
     push_user userMessage (or_else (language (x_body x)) (js "en")) ctx).
Proof.
  intros Hm Ha. unfold cbChat, cbChat_begin. rewrite Hm. cbn [negb].
  eexists. split; [|unfold cbChat_finish; destruct (x_answer x);
                    [reflexivity | rewrite Ha; reflexivity]].
  destruct (streq _ (js "en")); [|exact Hm].
  now apply translateToEnglish_nonempty.
Qed.

Lemma serve_failed_length (x : exchange) (n : nat) (ctx : list entry) :
  nonempty (or_else (message (x_body x)) []) = true ->
  trimmed (x_answer x) = None ->
  Forall (fun e => lang e = or_else (language (x_body x)) (js "en")) ctx ->
  length (serve true (replicate n x) ctx) = (length ctx + n)%nat.
Proof.
  intros Hm Ha. revert ctx. induction n as [|n IH]; intros ctx Hctx; cbn.
  - lia.
  - destruct (cbChat_failed x ctx Hm Ha) as (u & _ & ->). cbn [snd].
    rewrite (push_user_same_language _ _ _ Hctx).
    rewrite IH; [rewrite length_app; cbn; lia|].
    apply Forall_app; split; [exact Hctx | now apply Forall_singleton].
Qed.

Lemma push_user_filled (userMessage language : jsstring) (ctx : list entry) :
  nonempty userMessage = true -> nonempty language = true ->
  Forall (fun e => nonempty (content e) = true /\ nonempty (lang e) = true) ctx ->
  Forall (fun e => nonempty (content e) = true /\ nonempty (lang e) = true)
         (push_user userMessage language ctx).
Proof.
  intros Hu Hl Hctx. unfold push_user. apply Forall_app. split.
  - destruct ctx as [|e0 rest]; [constructor|].
    destruct (_ && _); [constructor | exact Hctx].
  - apply Forall_singleton. now split.
Qed.

Lemma step_filled (apiKey : bool) (e : event) (st st' : state)
    (r : option response) :
  filled st -> step apiKey e st = Some (st', r) -> filled st'.
Proof.
  intros [Hc Ha] Hs. destruct e as [b tr|k c|]; cbn [step] in Hs.
  - unfold cbChat_begin in Hs.
    destruct (negb (nonempty (or_else (message b) []))) eqn:Hm;
      [simplify_eq; now split|].
    destruct (negb apiKey); [simplify_eq; now split|].
    simplify_eq. apply negb_false_iff in Hm.
    split; cbn [cbChatContext awaiting].
    + apply push_user_filled; [|now apply or_else_nonempty|exact Hc].
      destruct (streq _ (js "en")); [|exact Hm].
      now apply translateToEnglish_nonempty.
    + apply Forall_app; split; [exact Ha|]. apply Forall_singleton.
      cbn [s_language]. now apply or_else_nonempty.
  - destruct (awaiting st !! k) as [h|] eqn:Hk; [|discriminate].
    pose proof (Forall_lookup_1 _ _ _ _ Ha Hk) as Hh.
    unfold cbChat_finish in Hs.
    destruct c as [|o]; [simplify_eq; split; [exact Hc | now apply Forall_delete]|].
    destruct (trimmed (Content o)) as [b|] eqn:Et;
      [|simplify_eq; split; [exact Hc | now apply Forall_delete]].
    simplify_eq. split; cbn [cbChatContext awaiting];
      [|now apply Forall_delete].
    unfold push_assistant. cbv zeta.
    assert (Hall : Forall (fun e => nonempty (content e) = true /\
                                    nonempty (lang e) = true)
                     (cbChatContext st ++
                      [{| e_role := assistant; content := b;
                          lang := s_language h |}])).
    { apply Forall_app; split; [exact Hc|]. apply Forall_singleton.
      split; [|exact Hh]. cbn [content]. unfold trimmed in Et.
      destruct o as [out|]; [|discriminate].
      destruct (nonempty (trim out)) eqn:E; [|discriminate].
      now simplify_eq. }
    destruct (_ <? _)%nat; [|exact Hall].
    unfold slice_last. now apply Forall_drop.
  - simplify_eq. split; [constructor | exact Ha].
Qed.

Lemma run_filled (apiKey : bool) (es : list event) (st st' : state) :
  filled st -> run apiKey es st = Some st' -> filled st'.
Proof.
  revert st. induction es as [|e es IH]; intros st Hst Hr; cbn in Hr.
  - now simplify_eq.
  - destruct (step apiKey e st) as [[st1 r]|] eqn:Hs; [|discriminate].
    eapply IH; [|exact Hr]. eapply step_filled; eauto.
Qed.

End MoreContext.

(** X15. The cut to ten entries is made on the path of a reply only.  A
    request with a message whose model call fails, or brings no text, is
    answered 500 and leaves its user entry in the context; [n] such
    requests in a row, from the empty context, leave [n] entries, however
    large [n] is. *)
Theorem failed_requests_accumulate (x : Server.exchange) (n : nat) :
  nonempty (or_else (Server.message (Server.x_body x)) []) = true ->
  Server.trimmed (Server.x_answer x) = None ->
  Server.status (fst (Server.cbChat true x [])) = 500 /\
  length (Server.serve true (replicate n x) []) = n.
Proof.
  intros Hm Ha. split.
  - destruct (cbChat_failed x [] Hm Ha) as (u & _ & ->). reflexivity.
  - rewrite serve_failed_length; auto.
Qed.

(** X16. /api/cb-clear empties the context and cancels nothing: when the
    model's answer to a request that was waiting arrives afterwards, the
    reply is pushed into the emptied context and is its only entry, with
    no user entry before it. *)
Theorem answer_after_clear (apiKey : bool) (st : Server.state) (k : nat)
    (h : Server.suspended) (c : Server.completion) (botReply : jsstring) :
  Server.awaiting st !! k = Some h ->
  Server.trimmed c = Some botReply ->
  exists st',
    Server.run apiKey [Server.Clear; Server.Answer k c] st = Some st' /\
    Server.cbChatContext st' =
      [{| Server.e_role := Server.assistant; Server.content := botReply;
          Server.lang := Server.s_language h |}] /\
    Server.awaiting st' = delete k (Server.awaiting st).
Proof.
  intros Hk Ht. cbn [Server.run Server.step Server.awaiting Server.cbChatContext].
  rewrite Hk. unfold Server.cbChat_finish.
  destruct c as [|o]; [discriminate Ht|]. rewrite Ht.
  eexists. split; [reflexivity|]. split; reflexivity.
Qed.

(** X17. Whatever requests with strings for message and language,
    answers and clearings reach the server, and in whatever order, no
    entry of the context has an empty message or an empty language
    tag. *)
Theorem context_entries_filled (apiKey : bool) (es : list Server.event)
    (st : Server.state) :
  Server.run apiKey es Server.start = Some st ->
  Forall (fun e => nonempty (Server.content e) = true /\
                   nonempty (Server.lang e) = true)
         (Server.cbChatContext st).
Proof.
  intros Hr. eapply run_filled in Hr as [H _]; [exact H|].
  split; constructor.
Qed.

(** * One-time codes *)

Section Codes.
Import Otp.

Lemma get_put_eq (k : jsstring) (e : entry) (st : store) :
  get k (put k e st) = Some e.
Proof.
  unfold get, put. destruct (streq k PROTO) eqn:E; cbn; rewrite ?E;
    [reflexivity | apply lookup_insert_eq].
Qed.

Lemma get_put_ne (k k' : jsstring) (e : entry) (st : store) :
  k <> k' -> get k' (put k e st) = get k' st.
Proof.
  intros Hne. unfold get, put.
  destruct (streq k PROTO) eqn:E, (streq k' PROTO) eqn:E'; cbn; auto.
  - apply streq_true in E, E'. congruence.
  - now apply lookup_insert_ne.
Qed.

Lemma get_remove_eq (k : jsstring) (st : store) :
  k <> PROTO -> get k (remove k st) = None.
Proof.
  intros Hk. apply streq_false in Hk. unfold get, remove. rewrite Hk. cbn.
  apply lookup_delete_eq.
Qed.

Lemma get_remove_ne (k k' : jsstring) (st : store) :
  k <> k' -> get k' (remove k st) = get k' st.
Proof.
  intros Hne. unfold get, remove.
  destruct (streq k PROTO) eqn:E, (streq k' PROTO) eqn:E'; cbn; auto.
  now apply lookup_delete_ne.
Qed.

(** A request for a code for a known user stores the code, good for ten
    minutes, whatever becomes of its delivery. *)
Lemma forgot_password_stores (id code : jsstring) (now : Z) (d : delivery)
    (st : store) :
  nonempty id = true ->
  snd (forgot_password (Some id) (Rows true) code now d st) =
  put id {| otp := code; expiresAt := now + 600000 |} st.
Proof.
  intros Hid. unfold forgot_password. rewrite Hid. cbn [negb].
  destruct (includes id (js "@")), d; reflexivity.
Qed.

(** The handler of /api/verify-otp in one piece. *)
Lemma verify_otp_eq (identifier code newPassword : option jsstring)
    (now : Z) (updated : bool) (st : store) :
  verify_otp identifier code newPassword now updated st =
  match identifier, code, newPassword with
  | Some id, Some c, Some pw =>
      if negb (nonempty id) || negb (nonempty c) || negb (nonempty pw)
      then ({| status := 400; text := js "All fields required" |}, st)
      else
        match get id st with
        | None => ({| status := 400; text := js "Invalid OTP" |}, st)
        | Some record =>
            if negb (streq (otp record) c)
            then ({| status := 400; text := js "Invalid OTP" |}, st)
            else if expiresAt record <? now
            then ({| status := 400; text := js "OTP expired" |}, st)
            else if updated
            then ({| status := 200; text := js "Password reset successful" |},
                  remove id st)
            else ({| status := 500; text := js "Internal server error" |}, st)
        end
  | _, _, _ => ({| status := 400; text := js "All fields required" |}, st)
  end.
Proof.
  unfold verify_otp, verify_otp_begin, verify_otp_finish.
  repeat case_match; simplify_eq; reflexivity.
Qed.

(** A verification with all its fields, against the entry stored. *)
Lemma verify_otp_against (id c pw : jsstring) (now : Z) (updated : bool)
    (st : store) (e : entry) :
  nonempty id = true -> nonempty c = true -> nonempty pw = true ->
  get id st = Some e ->
  verify_otp (Some id) (Some c) (Some pw) now updated st =
  if negb (streq (otp e) c)
  then ({| status := 400; text := js "Invalid OTP" |}, st)
  else if expiresAt e <? now
  then ({| status := 400; text := js "OTP expired" |}, st)
  else if updated
  then ({| status := 200; text := js "Password reset successful" |},
        remove id st)
  else ({| status := 500; text := js "Internal server error" |}, st).
Proof.
  intros Hid Hc Hpw Hg. rewrite verify_otp_eq, Hid, Hc, Hpw, Hg.
  reflexivity.
Qed.

Lemma streq_refl (a : jsstring) : streq a a = true.
Proof. now apply streq_true. Qed.

End Codes.


(** X19. While the verifications for an identifier are handled one at a
    time, a code is good for one reset: once a verification has succeeded
    for an identifier other than "__proto__", nothing is stored for that
    identifier, and every further verification for it is answered 400,
    with the same code or any other, until a new code is requested.  The
    handler checks the code before it awaits the hash and the UPDATE and
    deletes it only afterwards: a second verification with the same
    code that makes its checks before the first has deleted it passes
    them, and is answered 200 as well, also when it finishes after the
    first. *)
Theorem otp_single_use (id code pw : jsstring) (now : Z) (st : Otp.store) :
  id <> Otp.PROTO ->
  Otp.status (fst (Otp.verify_otp (Some id) (Some code) (Some pw) now true st))
    = 200 ->
  let st' := snd (Otp.verify_otp (Some id) (Some code) (Some pw) now true st) in
  (Otp.get id st' = None /\
   forall code' pw' now' updated,
     Otp.status (fst (Otp.verify_otp (Some id) code' pw' now' updated st'))
       = 400) /\
  (forall pw2 : jsstring,
      nonempty pw2 = true ->
      Otp.verify_otp_begin (Some id) (Some code) (Some pw2) now st = inr id /\
      Otp.verify_otp_finish id true st' =
        ({| Otp.status := 200; Otp.text := js "Password reset successful" |},
         st')).
Proof.
  intros Hid H200 st'.
  assert (E : st' = Otp.remove id st).
  { subst st'. revert H200. rewrite !verify_otp_eq.
    repeat case_match; cbn; try discriminate; reflexivity. }
  rewrite E. split.
  - split; [now apply get_remove_eq|].
    intros code' pw' now' updated. rewrite verify_otp_eq.
    rewrite (get_remove_eq id st Hid).
    repeat case_match; reflexivity.
  - intros pw2 Hpw2. split.
    + revert H200. rewrite verify_otp_eq. unfold Otp.verify_otp_begin.
      rewrite Hpw2.
      destruct (nonempty id), (nonempty code), (nonempty pw); cbn [negb orb];
        try discriminate.
      destruct (Otp.get id st) as [e|]; [|discriminate].
      destruct (negb (streq (Otp.otp e) code)); [discriminate|].
      destruct (Otp.expiresAt e <? now); [discriminate|]. reflexivity.
    + unfold Otp.verify_otp_finish. f_equal.
      apply streq_false in Hid. unfold Otp.remove. rewrite Hid.
      cbn [Otp.own Otp.proto]. now rewrite delete_delete_eq.
Qed.

(** X20. A verification that is not answered 200 changes nothing in the
    store: a wrong code does not use up the code stored (the handler
    counts no attempts), an expired code stays stored, and so does a code
    whose password update failed. *)
Theorem rejected_verification_keeps_store
    (identifier code newPassword : option jsstring) (now : Z)
    (updated : bool) (st : Otp.store) :
  Otp.status (fst (Otp.verify_otp identifier code newPassword now updated st))
    <> 200 ->
  snd (Otp.verify_otp identifier code newPassword now updated st) = st.
Proof.
  rewrite !verify_otp_eq. repeat case_match; cbn; try reflexivity.
  intros Hx. now contradiction Hx.
Qed.

(** X21. A new request for a code replaces the code stored for the
    identifier: after it the earlier code, if it differs, is answered 400
    "Invalid OTP" even within its own ten minutes. *)
Theorem new_code_replaces_old (id code1 code2 pw : jsstring)
    (t1 t2 now : Z) (d1 d2 : Otp.delivery) (updated : bool)
    (st : Otp.store) :
  nonempty id = true -> nonempty code1 = true -> nonempty pw = true ->
  code1 <> code2 ->
  let st1 :=
    snd (Otp.forgot_password (Some id) (Otp.Rows true) code1 t1 d1 st) in
  let st2 :=
    snd (Otp.forgot_password (Some id) (Otp.Rows true) code2 t2 d2 st1) in
  Otp.verify_otp (Some id) (Some code1) (Some pw) now updated st2 =
  ({| Otp.status := 400; Otp.text := js "Invalid OTP" |}, st2).
Proof.
  intros Hid Hc Hpw Hne st1 st2. subst st2 st1.
  rewrite !forgot_password_stores by exact Hid.
  rewrite (verify_otp_against id code1 pw now updated _ _ Hid Hc Hpw
             (get_put_eq _ _ _)).
  cbn [Otp.otp]. assert (E : streq code2 code1 = false)
    by (apply streq_false; congruence).
  now rewrite E.
Qed.

(** X22. The code is stored before it is sent: when the delivery fails,
    the request is answered 500, and the code that reached nobody is in
    the store and is accepted like any other. *)
Theorem undelivered_code_is_accepted (id code pw : jsstring) (issued now : Z)
    (d : Otp.delivery) (st : Otp.store) :
  nonempty id = true -> nonempty code = true -> nonempty pw = true ->
  d <> Otp.Sent -> now <= issued + 600000 ->
  let r := Otp.forgot_password (Some id) (Otp.Rows true) code issued d st in
  Otp.status (fst r) = 500 /\
  Otp.status
    (fst (Otp.verify_otp (Some id) (Some code) (Some pw) now true (snd r)))
    = 200.
Proof.
  intros Hid Hc Hpw Hd Hnow r. split.
  - subst r. unfold Otp.forgot_password. rewrite Hid. cbn [negb].
    destruct (includes id (js "@")), d; try reflexivity; contradiction.
  - subst r. rewrite forgot_password_stores by exact Hid.
    rewrite (verify_otp_against id code pw now true _ _ Hid Hc Hpw
               (get_put_eq _ _ _)).
    cbn [Otp.otp Otp.expiresAt]. rewrite streq_refl. cbn [negb].
    destruct (Z.ltb_spec (issued + 600000) now); [lia | reflexivity].
Qed.

(** X23. For the identifier "__proto__" the code is not used up: the
    assignment made the entry the prototype of the store, which [delete]
    does not touch, so a successful verification leaves the store as it
    was and the same code is accepted again. *)
Theorem proto_code_is_not_consumed (code pw : jsstring) (issued now : Z)
    (d : Otp.delivery) (st : Otp.store) :
  nonempty code = true -> nonempty pw = true -> now <= issued + 600000 ->
  let st1 :=
    snd (Otp.forgot_password (Some Otp.PROTO) (Otp.Rows true) code issued d st) in
  Otp.verify_otp (Some Otp.PROTO) (Some code) (Some pw) now true st1 =
  ({| Otp.status := 200; Otp.text := js "Password reset successful" |}, st1).
Proof.
  intros Hc Hpw Hnow st1. subst st1.
  rewrite forgot_password_stores by reflexivity.
  rewrite (verify_otp_against Otp.PROTO code pw now true _ _ eq_refl Hc Hpw
             (get_put_eq _ _ _)).
  cbn [Otp.otp Otp.expiresAt]. rewrite streq_refl. cbn [negb].
  destruct (Z.ltb_spec (issued + 600000) now); [lia|].
  reflexivity.
Qed.

(** X24. Requests about one identifier leave the code of every other
    identifier as it is. *)
Theorem otp_identifiers_are_independent (id id' : jsstring)
    (q : Otp.query) (code : jsstring) (c pw : option jsstring)
    (now : Z) (d : Otp.delivery) (updated : bool) (st : Otp.store) :
  id <> id' ->
  Otp.get id' (snd (Otp.forgot_password (Some id) q code now d st)) =
    Otp.get id' st /\
  Otp.get id' (snd (Otp.verify_otp (Some id) c pw now updated st)) =
    Otp.get id' st.
Proof.
  intros Hne. split.
  - unfold Otp.forgot_password.
    repeat case_match; cbn [snd]; auto using get_put_ne.
  - rewrite verify_otp_eq.
    repeat case_match; cbn [snd]; auto using get_remove_ne.
Qed.

(** * The further properties at concrete inputs *)

Lemma after_reachable (es : list event) (w : widget) :
  @run asciiLowerCase es page = Some w -> @reachable asciiLowerCase w.
Proof.
  intros Hr. exists true, false, (Some []), None, es. exact Hr.
Qed.

Lemma badge_shows_current_language_witness :
  let w := after [OpenClick; LangClick] in
  @reachable asciiLowerCase w /\
  exists d, box w = Some d /\
            badge d = (if streq (getCurrentLang w) (js "kn")
                       then js "KN" else js "EN") /\
            currentLang w = Some (getCurrentLang w) /\
            nonempty (getCurrentLang w) = true.
Proof.
  intros w.
  assert (Hr : @reachable asciiLowerCase w).
  { apply (after_reachable [OpenClick; LangClick]). vm_compute. reflexivity. }
  split; [exact Hr|].
  exact (@badge_shows_current_language asciiLowerCase w Hr).
Defined.

Lemma listening_without_recognition_witness :
  let w := loaded false false (Some []) None in
  (hasSR w = false /\ recognition w = None /\ isListening w = false) /\
  startListening w =
    (Ok tt, set_log (log w ++ [AAlert MSG_NO_RECOGNITION]) w) /\
  toggleListening w =
    (Ok tt, set_log (log w ++ [AAlert MSG_NO_RECOGNITION;
                               AAlert MSG_NO_RECOGNITION]) w).
Proof.
  intros w.
  assert (H1 : hasSR w = false) by (vm_compute; reflexivity).
  assert (H2 : recognition w = None) by (vm_compute; reflexivity).
  assert (H3 : isListening w = false) by (vm_compute; reflexivity).
  split; [auto|].
  destruct (listening_without_recognition w H1 H2) as [Hs Ht].
  split; [exact Hs | exact (Ht H3)].
Defined.

Lemma startListening_while_running_witness :
  let w := after [OpenClick; MicClick; RecStart 0] in
  let s := {| r_lang := js "en-IN"; r_onend := true; r_onerror := true;
              r_phase := Started; r_stopping := false |} in
  (recognition w = Some 0%nat /\ sessions w !! 0%nat = Some s /\
   running s = true) /\
  startListening w =
    (Ok tt,
     set_sessions (<[0%nat := set_phase (r_phase s) true s]> (sessions w)) w).
Proof.
  intros w s.
  assert (H1 : recognition w = Some 0%nat) by (vm_compute; reflexivity).
  assert (H2 : sessions w !! 0%nat = Some s) by (vm_compute; reflexivity).
  assert (H3 : running s = true) by (vm_compute; reflexivity).
  split; [auto|].
  exact (startListening_while_running w 0%nat s H1 H2 H3).
Defined.

Lemma locale_toggle_while_listening_witness :
  let w := after [OpenClick; MicClick; RecStart 0] in
  let s := {| r_lang := js "en-IN"; r_onend := true; r_onerror := true;
              r_phase := Started; r_stopping := false |} in
  let w1 := exec langBadge_onclick w in
  (recognition w = Some 0%nat /\ sessions w !! 0%nat = Some s /\
   running s = true /\ isListening w = true /\ hasSR w = true) /\
  (isListening w1 = true /\ recognition w1 = None) /\
  isListening (exec toggleListening w1) = false.
Proof.
  intros w s w1.
  assert (H1 : recognition w = Some 0%nat) by (vm_compute; reflexivity).
  assert (H2 : sessions w !! 0%nat = Some s) by (vm_compute; reflexivity).
  assert (H3 : running s = true) by (vm_compute; reflexivity).
  assert (H4 : isListening w = true) by (vm_compute; reflexivity).
  assert (H5 : hasSR w = true) by (vm_compute; reflexivity).
  split; [auto 6|].
  destruct (@locale_toggle_while_listening asciiLowerCase w 0%nat s
              H1 H2 H3 H4 H5) as (Ha & _ & Hb & _).
  split; [exact Ha | exact Hb].
Defined.

Lemma at_most_one_utterance_witness :
  let w := after [OpenClick; MicClick; RecStart 0;
                  RecResult 0 (Some (js "hello"));
                  FetchDone 0 (Http true (Json (Some (js "Hi"))))] in
  let s := {| voices := [];
              pending := [{| u_text := js "Hi"; u_lang := js "en-IN";
                             u_voice := None |}];
              speaking := None |} in
  (@reachable asciiLowerCase w /\ synth w = Some s) /\
  (length (pending s) +
   match speaking s with Some _ => 1 | None => 0 end <= 1)%nat.
Proof.
  intros w s.
  assert (Hr : @reachable asciiLowerCase w).
  { apply (after_reachable
             [OpenClick; MicClick; RecStart 0;
              RecResult 0 (Some (js "hello"));
              FetchDone 0 (Http true (Json (Some (js "Hi"))))]).
    vm_compute. reflexivity. }
  assert (Hs : synth w = Some s) by (vm_compute; reflexivity).
  split; [auto|].
  exact (@at_most_one_utterance asciiLowerCase w s Hr Hs).
Defined.

Lemma speaking_flag_exact_witness :
  let es := [OpenClick; MicClick; RecStart 0;
             RecResult 0 (Some (js "hello"));
             FetchDone 0 (Http true (Json (Some (js "Hi"))));
             UttStart] in
  let w := after es in
  @run asciiLowerCase es (loaded true false (Some []) None) = Some w /\
  (isBotSpeaking w = true <->
   exists s u, synth w = Some s /\ speaking s = Some u) /\
  (isBotSpeaking (after (es ++ [UttError])) = true /\
   speaking <$> synth (after (es ++ [UttError])) = Some None).
Proof.
  intros es w.
  assert (Hr : @run asciiLowerCase es (loaded true false (Some []) None)
               = Some w) by (vm_compute; reflexivity).
  assert (Hin : ~ In UttError es).
  { intros Hi. vm_compute in Hi. intuition discriminate. }
  split; [exact Hr|].
  destruct (@speaking_flag_exact asciiLowerCase true false (Some []) None
              es w Hr) as (_ & Hiff & _).
  split; [exact (Hiff Hin)|].
  split; vm_compute; reflexivity.
Defined.

Lemma relay_exception_witness :
  let w' := @relay asciiLowerCase (js "hello") (js "en") false [Rejected]
              page in
  (Rejected = Rejected \/ Rejected = Http true BadBody) /\
  transcript w' = [(Bot, MSG_API_ERROR)] /\
  log w' = [AFetch (fullPrompt (js "hello") (js "en")) (js "en"); AConsole].
Proof.
  intros w'.
  assert (H : Rejected = Rejected \/ Rejected = Http true BadBody)
    by (left; reflexivity).
  split; [exact H|].
  destruct (@relay_exception asciiLowerCase (js "hello") (js "en") false
              Rejected [] page H) as (Ht & Hl & _).
  split; [exact Ht | exact Hl].
Defined.

Lemma relay_missing_reply_witness :
  let w' := @relay asciiLowerCase (js "hello") (js "en") false
              [Http true (Json None)] page in
  (@None jsstring = None \/ @None jsstring = Some []) /\
  transcript w' = [(Bot, MSG_NO_REPLY)] /\
  log w' = [AFetch (fullPrompt (js "hello") (js "en")) (js "en");
            ASpeakOut MSG_NO_REPLY (js "en")].
Proof.
  intros w'.
  assert (H : @None jsstring = None \/ @None jsstring = Some [])
    by (left; reflexivity).
  split; [exact H|].
  destruct (@relay_missing_reply asciiLowerCase (js "hello") (js "en") false
              None [] page H) as (Ht & Hl & _).
  split; [exact Ht | exact Hl].
Defined.

Lemma widget_requests_are_valid_witness :
  let w := after [OpenClick; MicClick; RecStart 0;
                  RecResult 0 (Some (js "hello"))] in
  let message := fullPrompt (js "hello") (js "en") in
  (@reachable asciiLowerCase w /\
   In (message, js "en") (fetches (log w))) /\
  (js "en" = js "kn" \/ js "en" = js "en") /\
  Server.status
    (fst (Server.chat true
            {| Server.message := Some message;
               Server.language := Some (js "en") |} Server.Failed)) <> 400.
Proof.
  intros w message.
  assert (Hr : @reachable asciiLowerCase w).
  { apply (after_reachable
             [OpenClick; MicClick; RecStart 0;
              RecResult 0 (Some (js "hello"))]).
    vm_compute. reflexivity. }
  assert (Hi : In (message, js "en") (fetches (log w)))
    by (vm_compute; left; reflexivity).
  split; [auto|].
  destruct (@widget_requests_are_valid asciiLowerCase w message (js "en")
              Hr Hi) as (Hl & _ & Hs).
  split; [exact Hl | exact (Hs true Server.Failed)].
Defined.

Lemma reply_after_clear_witness :
  let w := after [OpenClick; MicClick; RecStart 0;
                  RecResult 0 (Some (js "hello"))] in
  let q := the_request (js "hello") (js "en") false in
  let r := Http true (Json (Some (js "Hi"))) in
  (displayed w = true /\ inflight w = [] ++ [q] /\ retries q r = false) /\
  exists w',
    @run asciiLowerCase [ClearClick; FetchDone (length (@nil request)) r] w
      = Some w' /\
    transcript w' = [(Bot, or_else (Some (js "Hi")) MSG_NO_REPLY)] /\
    speaks (log w') =
      speaks (log w) ++ [(or_else (Some (js "Hi")) MSG_NO_REPLY, q_lang q)].
Proof.
  intros w q r.
  assert (H1 : displayed w = true) by (vm_compute; reflexivity).
  assert (H2 : inflight w = [] ++ [q]) by (vm_compute; reflexivity).
  assert (H3 : retries q r = false) by (vm_compute; reflexivity).
  split; [auto|].
  exact (@reply_after_clear asciiLowerCase w [] q (Some (js "Hi")) H1 H2 H3).
Defined.

Lemma chat_end_to_end_witness :
  let p := Server.Body
             {| Server.message := Some (fullPrompt (js "hello") (js "en"));
                Server.language := Some (js "en") |} in
  let r := fst (Server.post_chat true p (Server.Content (Some (js " Hi ")))) in
  let w' := @relay asciiLowerCase (js "hello") (js "en") false
              [delivered r] page in
  (js "en" = js "en" \/ (false = true /\ nonempty (js "en") = true)) /\
  (Server.code r = 200 <->
   false = false /\ true = true /\
   Server.Content (Some (js " Hi ")) <> Server.Failed) /\
  speaks (log w') = speaks (log page) ++ [(js "Hi", js "en")].
Proof.
  intros p r w'.
  assert (H : js "en" = js "en" \/ (false = true /\ nonempty (js "en") = true))
    by (left; reflexivity).
  split; [exact H|].
  destruct (@chat_end_to_end asciiLowerCase (js "hello") (js "en") false true
              false (Server.Content (Some (js " Hi "))) [] page H)
    as (Hc & _ & _ & Hs).
  split; [exact Hc | exact Hs].
Defined.

Lemma failed_requests_accumulate_witness :
  let x := {| Server.x_body := {| Server.message := Some (js "hello");
                                  Server.language := Some (js "en") |};
              Server.x_translation := Server.Failed;
              Server.x_answer := Server.Failed |} in
  (nonempty (or_else (Server.message (Server.x_body x)) []) = true /\
   Server.trimmed (Server.x_answer x) = None) /\
  Server.status (fst (Server.cbChat true x [])) = 500 /\
  length (Server.serve true (replicate 12 x) []) = 12%nat.
Proof.
  intros x.
  assert (H1 : nonempty (or_else (Server.message (Server.x_body x)) []) = true)
    by reflexivity.
  assert (H2 : Server.trimmed (Server.x_answer x) = None) by reflexivity.
  split; [auto|].
  exact (failed_requests_accumulate x 12 H1 H2).
Defined.

Lemma answer_after_clear_witness :
  let h := {| Server.s_language := js "en" |} in
  let st := {| Server.cbChatContext :=
                 [{| Server.e_role := Server.user;
                     Server.content := js "hello"; Server.lang := js "en" |}];
               Server.awaiting := [h] |} in
  let c := Server.Content (Some (js "Hi")) in
  (Server.awaiting st !! 0%nat = Some h /\
   Server.trimmed c = Some (js "Hi")) /\
  exists st',
    Server.run true [Server.Clear; Server.Answer 0 c] st = Some st' /\
    Server.cbChatContext st' =
      [{| Server.e_role := Server.assistant; Server.content := js "Hi";
          Server.lang := Server.s_language h |}] /\
    Server.awaiting st' = delete 0%nat (Server.awaiting st).
Proof.
  intros h st c.
  assert (H1 : Server.awaiting st !! 0%nat = Some h) by reflexivity.
  assert (H2 : Server.trimmed c = Some (js "Hi")) by (vm_compute; reflexivity).
  split; [auto|].
  exact (answer_after_clear true st 0 h c (js "Hi") H1 H2).
Defined.

Lemma context_entries_filled_witness :
  let es := [Server.Chat {| Server.message := Some (js "hello");
                            Server.language := Some (js "en") |}
               Server.Failed;
             Server.Answer 0 (Server.Content (Some (js "Hi")))] in
  let st := {| Server.cbChatContext :=
                 [{| Server.e_role := Server.user;
                     Server.content := js "hello"; Server.lang := js "en" |};
                  {| Server.e_role := Server.assistant;
                     Server.content := js "Hi"; Server.lang := js "en" |}];
               Server.awaiting := [] |} in
  Server.run true es Server.start = Some st /\
  Forall (fun e => nonempty (Server.content e) = true /\
                   nonempty (Server.lang e) = true)
         (Server.cbChatContext st).
Proof.
  intros es st.
  assert (H : Server.run true es Server.start = Some st)
    by (vm_compute; reflexivity).
  split; [exact H|].
  exact (context_entries_filled true es st H).
Defined.


Lemma otp_single_use_witness :
  let st :=
    snd (Otp.forgot_password (Some (js "asha")) (Otp.Rows true) (js "482913")
           1000 Otp.Sent Otp.empty) in
  let st' :=
    snd (Otp.verify_otp (Some (js "asha")) (Some (js "482913"))
           (Some (js "secret")) 2000 true st) in
  (js "asha" <> Otp.PROTO /\
   Otp.status
     (fst (Otp.verify_otp (Some (js "asha")) (Some (js "482913"))
             (Some (js "secret")) 2000 true st)) = 200) /\
  (Otp.get (js "asha") st' = None /\
   Otp.status
     (fst (Otp.verify_otp (Some (js "asha")) (Some (js "482913"))
             (Some (js "secret")) 3000 true st')) = 400) /\
  (Otp.verify_otp_begin (Some (js "asha")) (Some (js "482913"))
     (Some (js "other")) 2000 st = inr (js "asha") /\
   Otp.status (fst (Otp.verify_otp_finish (js "asha") true st')) = 200).
Proof.
  intros st st'.
  assert (H1 : js "asha" <> Otp.PROTO)
    by (intros E; vm_compute in E; discriminate E).
  assert (H2 : Otp.status
                 (fst (Otp.verify_otp (Some (js "asha")) (Some (js "482913"))
                         (Some (js "secret")) 2000 true st)) = 200)
    by (vm_compute; reflexivity).
  split; [auto|].
  destruct (otp_single_use (js "asha") (js "482913") (js "secret") 2000 st
              H1 H2) as [[Hg Hv] Ho].
  split; [split; [exact Hg|]|].
  - exact (Hv (Some (js "482913")) (Some (js "secret")) 3000 true).
  - destruct (Ho (js "other") eq_refl) as [Hb Hf].
    split; [exact Hb|]. fold st' in Hf |- *.
    exact (f_equal (fun x => Otp.status (fst x)) Hf).
Defined.

Lemma rejected_verification_keeps_store_witness :
  let st :=
    snd (Otp.forgot_password (Some (js "asha")) (Otp.Rows true) (js "482913")
           1000 Otp.Sent Otp.empty) in
  Otp.status
    (fst (Otp.verify_otp (Some (js "asha")) (Some (js "000000"))
            (Some (js "secret")) 2000 true st)) <> 200 /\
  snd (Otp.verify_otp (Some (js "asha")) (Some (js "000000"))
         (Some (js "secret")) 2000 true st) = st.
Proof.
  intros st.
  assert (H : Otp.status
                (fst (Otp.verify_otp (Some (js "asha")) (Some (js "000000"))
                        (Some (js "secret")) 2000 true st)) <> 200)
    by (vm_compute; discriminate).
  split; [exact H|].
  exact (rejected_verification_keeps_store (Some (js "asha"))
           (Some (js "000000")) (Some (js "secret")) 2000 true st H).
Defined.

Lemma new_code_replaces_old_witness :
  let st1 :=
    snd (Otp.forgot_password (Some (js "asha")) (Otp.Rows true) (js "482913")
           1000 Otp.Sent Otp.empty) in
  let st2 :=
    snd (Otp.forgot_password (Some (js "asha")) (Otp.Rows true) (js "770034")
           2000 Otp.Sent st1) in
  (nonempty (js "asha") = true /\ nonempty (js "482913") = true /\
   nonempty (js "secret") = true /\ js "482913" <> js "770034") /\
  Otp.verify_otp (Some (js "asha")) (Some (js "482913")) (Some (js "secret"))
    3000 true st2 =
  ({| Otp.status := 400; Otp.text := js "Invalid OTP" |}, st2).
Proof.
  intros st1 st2.
  assert (H : js "482913" <> js "770034")
    by (intros E; vm_compute in E; discriminate E).
  split; [repeat split; exact H|].
  exact (new_code_replaces_old (js "asha") (js "482913") (js "770034")
           (js "secret") 1000 2000 3000 Otp.Sent Otp.Sent true Otp.empty
           eq_refl eq_refl eq_refl H).
Defined.

Lemma undelivered_code_is_accepted_witness :
  let r := Otp.forgot_password (Some (js "asha")) (Otp.Rows true)
             (js "482913") 1000 Otp.Refused Otp.empty in
  (nonempty (js "asha") = true /\ nonempty (js "482913") = true /\
   nonempty (js "secret") = true /\ Otp.Refused <> Otp.Sent /\
   2000 <= 1000 + 600000) /\
  Otp.status (fst r) = 500 /\
  Otp.status
    (fst (Otp.verify_otp (Some (js "asha")) (Some (js "482913"))
            (Some (js "secret")) 2000 true (snd r))) = 200.
Proof.
  intros r.
  assert (H1 : Otp.Refused <> Otp.Sent) by discriminate.
  assert (H2 : 2000 <= 1000 + 600000) by lia.
  split; [repeat split; auto|].
  exact (undelivered_code_is_accepted (js "asha") (js "482913") (js "secret")
           1000 2000 Otp.Refused Otp.empty eq_refl eq_refl eq_refl H1 H2).
Defined.

Lemma proto_code_is_not_consumed_witness :
  let st1 :=
    snd (Otp.forgot_password (Some Otp.PROTO) (Otp.Rows true) (js "482913")
           1000 Otp.Sent Otp.empty) in
  (nonempty (js "482913") = true /\ nonempty (js "secret") = true /\
   2000 <= 1000 + 600000) /\
  Otp.verify_otp (Some Otp.PROTO) (Some (js "482913")) (Some (js "secret"))
    2000 true st1 =
  ({| Otp.status := 200; Otp.text := js "Password reset successful" |}, st1).
Proof.
  intros st1.
  assert (H : 2000 <= 1000 + 600000) by lia.
  split; [repeat split; exact H|].
  exact (proto_code_is_not_consumed (js "482913") (js "secret") 1000 2000
           Otp.Sent Otp.empty eq_refl eq_refl H).
Defined.

Lemma otp_identifiers_are_independent_witness :
  let st :=
    snd (Otp.forgot_password (Some (js "ravi")) (Otp.Rows true) (js "770034")
           1000 Otp.Sent Otp.empty) in
  js "asha" <> js "ravi" /\
  Otp.get (js "ravi")
    (snd (Otp.forgot_password (Some (js "asha")) (Otp.Rows true)
            (js "482913") 2000 Otp.Sent st)) =
    Otp.get (js "ravi") st /\
  Otp.get (js "ravi")
    (snd (Otp.verify_otp (Some (js "asha")) (Some (js "482913"))
            (Some (js "secret")) 3000 true st)) =
    Otp.get (js "ravi") st.
Proof.
  intros st.
  assert (H : js "asha" <> js "ravi")
    by (intros E; vm_compute in E; discriminate E).
  split; [exact H|].
  exact (otp_identifiers_are_independent (js "asha") (js "ravi")
           (Otp.Rows true) (js "482913") (Some (js "482913"))
           (Some (js "secret")) 2000 Otp.Sent true st H).
Defined.

Lemma detected_language_keeps_recognizer_witness :
  let w := after [OpenClick; MicClick; RecStart 0; RecEnd 0] in
  let s := {| r_lang := js "en-IN"; r_onend := true; r_onerror := true;
              r_phase := Inactive; r_stopping := false |} in
  let w1 := exec (rec_onresult (Some Server.namaskara)) w in
  let w2 := exec startListening w1 in
  (recognition w = Some 0%nat /\ sessions w !! 0%nat = Some s /\
   r_phase s = Inactive) /\
  recognition w2 = Some 0%nat /\
  sessions w2 = <[0%nat := set_phase Requested false s]> (sessions w).
Proof.
  intros w s w1 w2.
  assert (H1 : recognition w = Some 0%nat) by (vm_compute; reflexivity).
  assert (H2 : sessions w !! 0%nat = Some s) by (vm_compute; reflexivity).
  assert (H3 : r_phase s = Inactive) by reflexivity.
  split; [auto|].
  destruct (@detected_language_keeps_recognizer asciiLowerCase w 0%nat s
              (Some Server.namaskara) H1 H2 H3) as (_ & Hr & Hs & _).
  split; [exact Hr | exact Hs].
Defined.
